(** * final_outcome.py: voice-started cleaning run with obstacle recovery

    The program is a set of asyncio coroutines that talk to an AlphaMini
    robot through the vendor SDK.  Everything runs on one event loop, so
    a coroutine runs without interruption between two [await]s; other
    tasks only run while it is suspended.

    The embedding follows that structure:
    - a coroutine is a term of the free monad [coro], one constructor per
      kind of thing the source does (awaited SDK call, access to the
      global flag, observer method, console line);
    - [perform] runs a coroutine up to its next suspension;
    - [solo] runs one coroutine to the end against the answers of the
      robot, with arbitrary changes of the shared memory by other tasks
      at every suspension;
    - [step] and [run] are the event loop: stream deliveries create
      tasks, tasks are started and resumed one at a time.

    What is taken from the SDK and from asyncio, which are not part of
    the program:
    - an awaited call is answered later, by a value of its result type;
      answers come in any order and time is not measured
      ([asyncio.sleep] is a call like the others);
    - [asyncio.create_task] only schedules its coroutine, which starts
      at a later turn of the loop;
    - an observer calls its handler for the messages delivered while it
      is started, and for no message while it is stopped;
    - a recognised text is a [string], a sequence of characters with the
      codes 0 to 255, which stand for the code points U+0000 to U+00FF;
      on these [strip] and [lower] below are [str.strip] and [str.lower]
      exactly.  Text with a code point from U+0100 on is outside the
      model. *)

From Stdlib Require Import ZArith String Ascii List Bool Lia.
From stdpp Require Import base option list.
Import ListNotations.
Local Open Scope string_scope.
Local Open Scope Z_scope.
Local Open Scope list_scope.

(** ** Values exchanged with the SDK *)

(** [mini.MoveRobotDirection]. *)
Inductive MoveRobotDirection := FORWARD | BACKWARD | LEFTWARD | RIGHTWARD.

(** [mini.apis.base_api.MiniApiResultType]; the program only compares
    against [Success]. *)
Inductive MiniApiResultType := Success | Timeout | Unsupported.

(** The protobuf response of a command; the program reads [isSuccess]. *)
Record response := { isSuccess : bool }.

(** [mini.dns.dns_browser.WiFiDevice], an opaque handle for the program. *)
Record WiFiDevice := { device_name : string }.

(** The awaited calls: each one suspends the calling task until the
    outside world answers. *)
Inductive op :=
| StartPlayTTS (text : string)
| MoveRobot (direction : MoveRobotDirection) (step : Z)
| asyncio_sleep (seconds : nat)
| Mini_get_device_by_name (name : string) (timeout : nat)
| Mini_connect (dev : WiFiDevice)
| Mini_enter_program
| Mini_quit_program
| Mini_release.

(** What an awaited call evaluates to. *)
Definition reply (o : op) : Type :=
  match o with
  | StartPlayTTS _ | MoveRobot _ _ => (MiniApiResultType * response)%type
  | Mini_get_device_by_name _ _ => option WiFiDevice
  | Mini_connect _ => bool
  | asyncio_sleep _ | Mini_enter_program | Mini_quit_program | Mini_release => unit
  end.

(** The two observer classes of [mini.apis.api_observe]. *)
Inductive observer_class := ObserveInfraredDistance | ObserveSpeechRecognise.

(** The messages the two streams deliver. *)
Inductive message :=
| ObserveInfraredDistanceResponse (distance : Z)
| SpeechRecogniseResponse (text : string).

(** The two [lambda msg: asyncio.create_task(handler(msg))] closures; each
    captures the [observer] object of the enclosing call. *)
Inductive closure :=
| infrared_lambda (observer : nat)
| speech_lambda (observer : nat).

(** Lines written by [print] and [logging.info]. *)
Inductive line :=
| TTS_Response (resultType : MiniApiResultType) (r : response)
| Move_result (r : response)
| Distance_is (distance : Z)
| Raw_Speech_Recognition_Output (recognized_text : string)
| Recognized_please_clean
| Recognized_finish
| Device_Found (result : option WiFiDevice).

(** ** Coroutines *)

Inductive coro (A : Type) : Type :=
| Ret (a : A)
| Await (o : op) (k : reply o -> coro A)
| Forever (o : op)
| LoadStop (k : bool -> coro A)
| StoreStop (b : bool) (k : coro A)
| NewObserver (c : observer_class) (k : nat -> coro A)
| SetHandler (obs : nat) (h : closure) (k : coro A)
| ObserverStart (obs : nat) (k : coro A)
| ObserverStop (obs : nat) (k : coro A)
| Console (l : line) (k : coro A).

Arguments Ret {A} a.
Arguments Await {A} o k.
Arguments Forever {A} o.
Arguments LoadStop {A} k.
Arguments StoreStop {A} b k.
Arguments NewObserver {A} c k.
Arguments SetHandler {A} obs h k.
Arguments ObserverStart {A} obs k.
Arguments ObserverStop {A} obs k.
Arguments Console {A} l k.

Fixpoint bind {A B} (c : coro A) (f : A -> coro B) : coro B :=
  match c with
  | Ret a => f a
  | Await o k => Await o (fun r => bind (k r) f)
  | Forever o => Forever o
  | LoadStop k => LoadStop (fun b => bind (k b) f)
  | StoreStop b k => StoreStop b (bind k f)
  | NewObserver c k => NewObserver c (fun i => bind (k i) f)
  | SetHandler obs h k => SetHandler obs h (bind k f)
  | ObserverStart obs k => ObserverStart obs (bind k f)
  | ObserverStop obs k => ObserverStop obs (bind k f)
  | Console l k => Console l (bind k f)
  end.

Declare Scope coro_scope.
Delimit Scope coro_scope with coro.
Notation "x <- c ;; k" := (bind c (fun x => k))
  (at level 20, c at level 99, k at level 200, only parsing) : coro_scope.
Notation "' p <- c ;; k" := (bind c (fun x => let 'p := x in k))
  (at level 20, p pattern, c at level 99, k at level 200, only parsing)
  : coro_scope.
Notation "c ;; k" := (bind c (fun _ => k))
  (at level 100, k at level 200, only parsing, right associativity)
  : coro_scope.
Local Open Scope coro_scope.

Definition await (o : op) : coro (reply o) := Await o Ret.
Definition load_STOP_MOVE_SEQUENCE : coro bool := LoadStop Ret.
Definition store_STOP_MOVE_SEQUENCE (b : bool) : coro unit := StoreStop b (Ret tt).
Definition new_observer (c : observer_class) : coro nat := NewObserver c Ret.
Definition set_handler (obs : nat) (h : closure) : coro unit := SetHandler obs h (Ret tt).
Definition observer_start (obs : nat) : coro unit := ObserverStart obs (Ret tt).
Definition observer_stop (obs : nat) : coro unit := ObserverStop obs (Ret tt).
Definition print (l : line) : coro unit := Console l (Ret tt).

(** ** [str.strip] and [str.lower] *)

(** [str.isspace] on the code points below 256: tab to carriage return,
    the four separators 28..31, the blank, NEXT LINE (U+0085) and the
    no-break space (U+00A0). *)
Definition isspace (c : ascii) : bool :=
  let n := nat_of_ascii c in
  ((9 <=? n) && (n <=? 13) || (28 <=? n) && (n <=? 31) || (n =? 32)
   || (n =? 133) || (n =? 160))%nat.

Fixpoint lstrip (s : list ascii) : list ascii :=
  match s with
  | c :: s' => if isspace c then lstrip s' else s
  | [] => []
  end.

(** [str.strip()] without argument removes the characters for which
    [str.isspace] holds from both ends. *)
Definition strip (s : string) : string :=
  string_of_list_ascii
    (rev (lstrip (rev (lstrip (list_ascii_of_string s))))).

(** [str.lower] on one code point below 256: the capitals are A to Z,
    U+00C0 to U+00D6 and U+00D8 to U+00DE (U+00D7 is the multiplication
    sign), each 32 below its small letter; every other character is left
    as it is. *)
Definition lower_char (c : ascii) : ascii :=
  let n := nat_of_ascii c in
  if ((65 <=? n) && (n <=? 90) || (192 <=? n) && (n <=? 214)
      || (216 <=? n) && (n <=? 222))%nat
  then ascii_of_nat (n + 32) else c.

Definition lower (s : string) : string :=
  string_of_list_ascii (map lower_char (list_ascii_of_string s)).

(** ** The program *)

(** [play_tts], lines 21-25. *)
Definition play_tts (text : string) : coro unit :=
  '(resultType, response) <- await (StartPlayTTS text) ;;
  print (TTS_Response resultType response).

Definition is_Success (t : MiniApiResultType) : bool :=
  match t with Success => true | _ => false end.

(** [move_robot], lines 28-41. *)
Definition move_robot (direction : MoveRobotDirection) (step : Z) : coro bool :=
  '(resultType, response) <- await (MoveRobot direction step) ;;
  print (Move_result response) ;;
  if is_Success resultType && isSuccess response then
    await (asyncio_sleep 1) ;;
    Ret true
  else
    Ret false.

(** [x and not STOP_MOVE_SEQUENCE]: the global is read only when [x] holds. *)
Definition and_not_STOP_MOVE_SEQUENCE (x : bool) : coro bool :=
  if x then
    stop <- load_STOP_MOVE_SEQUENCE ;;
    Ret (negb stop)
  else
    Ret false.

(** [move_sequence], lines 44-53. *)
Definition move_sequence : coro unit :=
  store_STOP_MOVE_SEQUENCE false ;;
  m1 <- move_robot FORWARD 9 ;;
  c1 <- and_not_STOP_MOVE_SEQUENCE m1 ;;
  if c1 then
    m2 <- move_robot BACKWARD 4 ;;
    if m2 then
      m3 <- move_robot RIGHTWARD 6 ;;
      c3 <- and_not_STOP_MOVE_SEQUENCE m3 ;;
      if c3 then
        m4 <- move_robot FORWARD 5 ;;
        c4 <- and_not_STOP_MOVE_SEQUENCE m4 ;;
        if c4 then
          play_tts "Finished cleaning, returning to home position"
        else Ret tt
      else Ret tt
    else Ret tt
  else Ret tt.

(** The nested [handler] of [observe_infrared_distance], lines 61-81;
    [observer] is the object captured from the enclosing call. *)
Definition observe_infrared_distance_handler (observer : nat) (distance : Z)
  : coro unit :=
  print (Distance_is distance) ;;
  if (distance <? 150)%Z then
    observer_stop observer ;;
    store_STOP_MOVE_SEQUENCE true ;;
    play_tts "Obstacle detected, stopping movement." ;;
    await (asyncio_sleep 2) ;;
    _ <- move_robot BACKWARD 5 ;;
    await (asyncio_sleep 2) ;;
    store_STOP_MOVE_SEQUENCE false ;;
    observer_start observer ;;
    move_sequence
  else Ret tt.

(** [observe_infrared_distance], lines 56-85. *)
Definition observe_infrared_distance : coro unit :=
  observer <- new_observer ObserveInfraredDistance ;;
  set_handler observer (infrared_lambda observer) ;;
  observer_start observer ;;
  await (asyncio_sleep 0).

(** [shutdown], lines 131-133. *)
Definition shutdown : coro unit :=
  await Mini_quit_program ;;
  await Mini_release.

(** The nested [handler] of [observe_speech], lines 92-108. *)
Definition observe_speech_handler (observer : nat) (text : string) : coro unit :=
  let recognized_text := lower (strip text) in
  print (Raw_Speech_Recognition_Output recognized_text) ;;
  if String.eqb recognized_text "hello." then
    print Recognized_please_clean ;;
    play_tts "Starting cleaning process" ;;
    observer_stop observer ;;
    observe_infrared_distance ;;
    move_sequence
  else if String.eqb recognized_text "finish." then
    print Recognized_finish ;;
    play_tts "Shutting down." ;;
    observer_stop observer ;;
    shutdown
  else Ret tt.

(** [observe_speech], lines 88-111. *)
Definition observe_speech : coro unit :=
  observer <- new_observer ObserveSpeechRecognise ;;
  set_handler observer (speech_lambda observer) ;;
  observer_start observer.

(** [get_device_by_name], lines 117-120. *)
Definition get_device_by_name : coro (option WiFiDevice) :=
  result <- await (Mini_get_device_by_name "00345" 10) ;;
  print (Device_Found result) ;;
  Ret result.

(** [connection], lines 123-124. *)
Definition connection (dev : WiFiDevice) : coro bool :=
  await (Mini_connect dev).

(** [start_run_program], lines 127-128. *)
Definition start_run_program : coro unit :=
  await Mini_enter_program.

(** [main], lines 136-147; [Forever] is the [while True] loop. *)
Definition main : coro unit :=
  device <- get_device_by_name ;;
  match device with
  | Some dev =>
      _ <- connection dev ;;
      start_run_program ;;
      observe_speech ;;
      Forever (asyncio_sleep 1)
  | None => Ret tt
  end.

(** ** Shared memory and the synchronous part of a coroutine *)

(** An observer object: its class, the handler given to [set_handler] and
    whether it is subscribed ([start]) or not ([stop]). *)
Record observer := {
  class : observer_class;
  handler : option closure;
  started : bool
}.

(** What all tasks share: the module global and the observer objects. *)
Record shared := {
  STOP_MOVE_SEQUENCE : bool;
  observers : list observer
}.

Definition set_STOP_MOVE_SEQUENCE (b : bool) (m : shared) : shared :=
  {| STOP_MOVE_SEQUENCE := b; observers := observers m |}.

Definition set_observers (f : list observer -> list observer) (m : shared)
  : shared :=
  {| STOP_MOVE_SEQUENCE := STOP_MOVE_SEQUENCE m; observers := f (observers m) |}.

Definition with_handler (h : closure) (ob : observer) : observer :=
  {| class := class ob; handler := Some h; started := started ob |}.

Definition with_started (b : bool) (ob : observer) : observer :=
  {| class := class ob; handler := handler ob; started := b |}.

(** What a task does that the rest of the system can see, in order. *)
Inductive action :=
| Call (o : op)
| Store (b : bool)
| Construct (obs : nat) (c : observer_class)
| Handler (obs : nat) (h : closure)
| Started (obs : nat)
| Stopped (obs : nat)
| Printed (l : line).

(** How a synchronous stretch ends: the coroutine returned, or it is
    suspended on an awaited call with the rest of its body. *)
Inductive status (A : Type) : Type :=
| Returned (a : A)
| Blocked (o : op) (k : reply o -> coro A).

Arguments Returned {A} a.
Arguments Blocked {A} o k.

(** Runs [c] up to its next [await]. *)
Fixpoint perform {A} (c : coro A) (m : shared)
  : shared * list action * status A :=
  match c with
  | Ret a => (m, [], Returned a)
  | Await o k => (m, [Call o], Blocked o k)
  | Forever o => (m, [Call o], Blocked o (fun _ => Forever o))
  | LoadStop k => perform (k (STOP_MOVE_SEQUENCE m)) m
  | StoreStop b k =>
      let '(m', acts, st) := perform k (set_STOP_MOVE_SEQUENCE b m) in
      (m', Store b :: acts, st)
  | NewObserver c k =>
      let obs := length (observers m) in
      let fresh := {| class := c; handler := None; started := false |} in
      let '(m', acts, st) :=
        perform (k obs) (set_observers (fun l => l ++ [fresh]) m) in
      (m', Construct obs c :: acts, st)
  | SetHandler obs h k =>
      let '(m', acts, st) :=
        perform k (set_observers (alter (with_handler h) obs) m) in
      (m', Handler obs h :: acts, st)
  | ObserverStart obs k =>
      let '(m', acts, st) :=
        perform k (set_observers (alter (with_started true) obs) m) in
      (m', Started obs :: acts, st)
  | ObserverStop obs k =>
      let '(m', acts, st) :=
        perform k (set_observers (alter (with_started false) obs) m) in
      (m', Stopped obs :: acts, st)
  | Console l k =>
      let '(m', acts, st) := perform k m in
      (m', Printed l :: acts, st)
  end.

(** ** Answers of the outside world *)

Inductive answer :=
| Result (resultType : MiniApiResultType) (r : response)
| Device (result : option WiFiDevice)
| Connected (b : bool)
| Done.

(** An answer resumes a task only when it is of the kind its awaited call
    evaluates to. *)
Definition fits (o : op) (a : answer) : option (reply o) :=
  match o return option (reply o) with
  | StartPlayTTS _ =>
      match a with Result t r => Some (t, r) | _ => None end
  | MoveRobot _ _ =>
      match a with Result t r => Some (t, r) | _ => None end
  | Mini_get_device_by_name _ _ =>
      match a with Device d => Some d | _ => None end
  | Mini_connect _ =>
      match a with Connected b => Some b | _ => None end
  | asyncio_sleep _ =>
      match a with Done => Some tt | _ => None end
  | Mini_enter_program =>
      match a with Done => Some tt | _ => None end
  | Mini_quit_program =>
      match a with Done => Some tt | _ => None end
  | Mini_release =>
      match a with Done => Some tt | _ => None end
  end.

(** ** One coroutine among others *)

(** [solo] resumes a suspended coroutine with the answers of [env], one
    per suspension.  Each answer comes with what the other tasks did to
    the shared memory while the coroutine was suspended. *)
Fixpoint solo {A} (st : shared * list action * status A)
    (env : list (answer * (shared -> shared)))
  : shared * list action * status A :=
  match env with
  | [] => st
  | (a, others) :: env' =>
      match st with
      | (m, acts, Blocked o k) =>
          match fits o a with
          | Some r =>
              let '(m', acts', st') := perform (k r) (others m) in
              solo (m', acts ++ acts', st') env'
          | None => st
          end
      | (_, _, Returned _) => st
      end
  end.

(** ** The event loop *)

Inductive task :=
| Pending (c : coro unit)
| Suspended (o : op) (k : reply o -> coro unit)
| Finished.

(** The log keeps every action with the task that did it. *)
Record world := {
  memory : shared;
  tasks : list task;
  log : list (nat * action)
}.

Inductive event :=
| Deliver (obs : nat) (msg : message)
| Start (tid : nat)
| Resume (tid : nat) (a : answer).

(** Calling a stored closure on a message gives the coroutine that
    [asyncio.create_task] is applied to. *)
Definition invoke (h : closure) (msg : message) : option (coro unit) :=
  match h, msg with
  | infrared_lambda observer, ObserveInfraredDistanceResponse distance =>
      Some (observe_infrared_distance_handler observer distance)
  | speech_lambda observer, SpeechRecogniseResponse text =>
      Some (observe_speech_handler observer text)
  | _, _ => None
  end.

Definition task_of_status (st : status unit) : task :=
  match st with
  | Returned _ => Finished
  | Blocked o k => Suspended o k
  end.

(** Task [tid] runs [c] up to its next suspension. *)
Definition advance (w : world) (tid : nat) (c : coro unit) : world :=
  let '(m, acts, st) := perform c (memory w) in
  {| memory := m;
     tasks := <[tid := task_of_status st]> (tasks w);
     log := log w ++ map (pair tid) acts |}.

(** One turn of the loop.  A message for a subscribed observer creates a
    task, which runs only when it is started; a message for an observer
    that is not subscribed is dropped.  Events that cannot happen (no such
    observer or task, an answer of the wrong kind) give [None]. *)
Definition step (w : world) (e : event) : option world :=
  match e with
  | Deliver obs msg =>
      match observers (memory w) !! obs with
      | Some ob =>
          match handler ob with
          | Some h =>
              match invoke h msg with
              | Some c =>
                  if started ob then
                    Some {| memory := memory w;
                            tasks := tasks w ++ [Pending c];
                            log := log w |}
                  else Some w
              | None => None
              end
          | None => if started ob then None else Some w
          end
      | None => None
      end
  | Start tid =>
      match tasks w !! tid with
      | Some (Pending c) => Some (advance w tid c)
      | _ => None
      end
  | Resume tid a =>
      match tasks w !! tid with
      | Some (Suspended o k) =>
          match fits o a with
          | Some r => Some (advance w tid (k r))
          | None => None
          end
      | _ => None
      end
  end.

Fixpoint run (w : world) (es : list event) : option world :=
  match es with
  | [] => Some w
  | e :: es' =>
      match step w e with
      | Some w' => run w' es'
      | None => None
      end
  end.

(** [asyncio.run(main())]: one task, nothing else. *)
Definition boot : world :=
  {| memory := {| STOP_MOVE_SEQUENCE := false; observers := [] |};
     tasks := [Pending main];
     log := [] |}.

(** ** Reading the log *)

(** The awaited calls among some actions, in order. *)
Definition calls (l : list action) : list op :=
  omap (fun a => match a with Call o => Some o | _ => None end) l.

Definition is_move (o : op) : bool :=
  match o with MoveRobot _ _ => true | _ => false end.

Definition is_command (o : op) : bool :=
  match o with MoveRobot _ _ | StartPlayTTS _ => true | _ => false end.

(** The movement commands among some actions. *)
Definition moves (l : list action) : list op := List.filter is_move (calls l).

(** The commands to the robot's motors and voice among some actions. *)
Definition commands (l : list action) : list op :=
  List.filter is_command (calls l).

(** Everything done so far, and what task [tid] did of it. *)
Definition history (w : world) : list action := map snd (log w).

Definition own (tid : nat) (l : list (nat * action)) : list action :=
  map snd (List.filter (fun e => Nat.eqb (fst e) tid) l).

(** Whether event [e] is a turn of task [tid]. *)
Definition turn_of (tid : nat) (e : event) : bool :=
  match e with
  | Deliver _ _ => false
  | Start tid' | Resume tid' _ => Nat.eqb tid' tid
  end.

(** The other tasks leave a cleared flag cleared. *)
Definition calm (others : shared -> shared) : Prop :=
  forall m, STOP_MOVE_SEQUENCE m = false -> STOP_MOVE_SEQUENCE (others m) = false.

(** ** The plan and what its steps leave in the log *)

(** A command that worked. *)
Definition ok : answer := Result Success {| isSuccess := true |}.

(** The steps of [move_sequence], in order. *)
Definition plan : list op :=
  [MoveRobot FORWARD 9; MoveRobot BACKWARD 4;
   MoveRobot RIGHTWARD 6; MoveRobot FORWARD 5].

Definition announcement : op :=
  StartPlayTTS "Finished cleaning, returning to home position".

(** All the commands of a run that completes. *)
Definition full : list op :=
  StartPlayTTS "Starting cleaning process" :: plan ++ [announcement].

(** A step that worked: the command, the logged result, the settle delay. *)
Definition worked (o : op) : list action :=
  [Call o; Printed (Move_result {| isSuccess := true |});
   Call (asyncio_sleep 1)].

(** The answers to a run of [move_sequence] whose first [i] steps work
    and whose next call is answered by [last]. *)
Definition answers (i : nat) (last : answer) : list answer :=
  concat (repeat [ok; Done] i) ++ [last].

(** What [move_sequence] has done when its call for step [i] has been
    answered by a failure with response [r]. *)
Definition until_failure (i : nat) (r : response) : list action :=
  Store false :: concat (map worked (firstn i plan))
    ++ match plan !! i with
       | Some o => [Call o; Printed (Move_result r)]
       | None => []
       end.

(** ** The obstacle handler *)

(** The first stretch of a handler whose reading is too close. *)
Definition trip (observer : nat) (distance : Z) : list action :=
  [Printed (Distance_is distance);
   Stopped observer;
   Store true;
   Call (StartPlayTTS "Obstacle detected, stopping movement.")].

(** The answers to an obstacle handler up to the restart of the
    sequence: the announcement, the first cooldown, the retreat (with its
    settle delay when it worked) and the second cooldown. *)
Definition recovery_answers (t : MiniApiResultType) (r : response)
    (mt : MiniApiResultType) (mr : response) : list answer :=
  [Result t r; Done; Result mt mr]
    ++ (if is_Success mt && isSuccess mr then [Done] else [])
    ++ [Done].

(** What the handler does over these answers. *)
Definition recovery (observer : nat) (distance : Z) (t : MiniApiResultType)
    (r : response) (mt : MiniApiResultType) (mr : response) : list action :=
  trip observer distance
  ++ [Printed (TTS_Response t r);
      Call (asyncio_sleep 2);
      Call (MoveRobot BACKWARD 5);
      Printed (Move_result mr)]
  ++ (if is_Success mt && isSuccess mr then [Call (asyncio_sleep 1)] else [])
  ++ [Call (asyncio_sleep 2);
      Store false;
      Started observer;
      Store false;
      Call (MoveRobot FORWARD 9)].

(** ** The speech handler *)

(** What the handler of ["hello."] does up to the yield of
    [observe_infrared_distance]; [infrared] is the new observer. *)
Definition start_task (observer : nat) (t : MiniApiResultType) (r : response)
    (infrared : nat) : list action :=
  [Printed (Raw_Speech_Recognition_Output "hello.");
   Printed Recognized_please_clean;
   Call (StartPlayTTS "Starting cleaning process");
   Printed (TTS_Response t r);
   Stopped observer;
   Construct infrared ObserveInfraredDistance;
   Handler infrared (infrared_lambda infrared);
   Started infrared;
   Call (asyncio_sleep 0)].

(** What the handler of ["finish."] does. *)
Definition abort (observer : nat) (t : MiniApiResultType) (r : response)
  : list action :=
  [Printed (Raw_Speech_Recognition_Output "finish.");
   Printed Recognized_finish;
   Call (StartPlayTTS "Shutting down.");
   Printed (TTS_Response t r);
   Stopped observer;
   Call Mini_quit_program;
   Call Mini_release].

(** The memory once [observe_infrared_distance] has run in [m]: one more
    observer, with its handler, subscribed. *)
Definition watching (m : shared) : shared :=
  set_observers
    (fun l =>
       l ++ [{| class := ObserveInfraredDistance;
                handler := Some (infrared_lambda (length l));
                started := true |}]) m.

(** ** Worlds and scenarios *)

Definition alphamini : WiFiDevice := {| device_name := "00345" |}.

(** The robot is found, the program connects and enters program mode, and
    [observe_speech] subscribes: task 0 is [main], observer 0 listens. *)
Definition startup (dev : WiFiDevice) (connected : bool) : list event :=
  [Start 0%nat; Resume 0%nat (Device (Some dev));
   Resume 0%nat (Connected connected); Resume 0%nat Done].

(** An utterance arrives, its handler runs as task 1 and its
    announcement is answered. *)
Definition heard (text : string) (t : MiniApiResultType) (r : response)
  : list event :=
  [Deliver 0%nat (SpeechRecogniseResponse text); Start 1%nat;
   Resume 1%nat (Result t r)].

(** The same, up to the first command of the sequence. *)
Definition hello (text : string) : list event :=
  heard text Success {| isSuccess := true |} ++ [Resume 1%nat Done].

(** The world after a failed discovery. *)
Definition not_found : world :=
  {| memory := {| STOP_MOVE_SEQUENCE := false; observers := [] |};
     tasks := [Finished];
     log := [(0%nat, Call (Mini_get_device_by_name "00345" 10));
             (0%nat, Printed (Device_Found None))] |}.

(** Observer 0 has stopped listening, observer 1 watches the distance. *)
Definition listening_stopped : list observer :=
  [{| class := ObserveSpeechRecognise;
      handler := Some (speech_lambda 0); started := false |};
   {| class := ObserveInfraredDistance;
      handler := Some (infrared_lambda 1); started := true |}].

(** [main] in its [while True] loop. *)
Definition idle : task :=
  Suspended (asyncio_sleep 1) (fun _ => Forever (asyncio_sleep 1)).

(** The world once ["hello."] has been heard and announced: [main] idles,
    task 1 has subscribed the distance observer and yielded. *)
Definition running (dev : WiFiDevice) (t : MiniApiResultType) (r : response)
  : world :=
  {| memory := {| STOP_MOVE_SEQUENCE := false; observers := listening_stopped |};
     tasks := [idle; Suspended (asyncio_sleep 0) (fun _ => move_sequence)];
     log :=
       map (pair 0%nat)
         [Call (Mini_get_device_by_name "00345" 10);
          Printed (Device_Found (Some dev));
          Call (Mini_connect dev);
          Call Mini_enter_program;
          Construct 0 ObserveSpeechRecognise;
          Handler 0 (speech_lambda 0);
          Started 0;
          Call (asyncio_sleep 1)]
       ++ map (pair 1%nat) (start_task 0 t r 1) |}.

(** The obstacle arrives while [Backward 4] is in flight: the readings
    300, 300, 120, 300 of the specification's example, the third one
    handled (task 4) before [Backward 4] is answered. *)
Definition obstacle_during_step_2 : list event :=
  startup alphamini true ++ hello "hello."
  ++ [Deliver 1%nat (ObserveInfraredDistanceResponse 300); Start 2%nat;
      Resume 1%nat ok; Resume 1%nat Done;
      Deliver 1%nat (ObserveInfraredDistanceResponse 300); Start 3%nat;
      Deliver 1%nat (ObserveInfraredDistanceResponse 120); Start 4%nat;
      Deliver 1%nat (ObserveInfraredDistanceResponse 300);
      Resume 1%nat ok; Resume 1%nat Done].

(** [Backward 4] is in flight. *)
Definition step_1_in_flight : list event :=
  startup alphamini true ++ hello "hello."
  ++ [Resume 1%nat ok; Resume 1%nat Done].

(** ["finish."] is recognised while the announcement of the start is
    still playing: task 1 handles ["hello."], task 2 handles ["finish."]. *)
Definition finish_while_starting : list event :=
  startup alphamini true
  ++ [Deliver 0%nat (SpeechRecogniseResponse "hello."); Start 1%nat;
      Deliver 0%nat (SpeechRecogniseResponse "finish."); Start 2%nat;
      Resume 1%nat ok; Resume 1%nat Done;
      Resume 2%nat ok; Resume 2%nat Done; Resume 2%nat Done;
      Resume 1%nat ok; Resume 1%nat Done].

(** Two close readings are delivered before the task of the first one
    has run. *)
Definition burst : list event :=
  [Deliver 1%nat (ObserveInfraredDistanceResponse 120);
   Deliver 1%nat (ObserveInfraredDistanceResponse 110);
   Start 2%nat; Start 3%nat].

(** A whole run without obstacle: readings above the threshold come in
    and [main] wakes up between the steps. *)
Definition smooth : list event :=
  [Resume 1%nat Done;
   Deliver 1%nat (ObserveInfraredDistanceResponse 300); Start 2%nat;
   Resume 1%nat ok; Resume 0%nat Done; Resume 1%nat Done;
   Resume 1%nat ok; Resume 1%nat Done;
   Deliver 1%nat (ObserveInfraredDistanceResponse 150);
   Resume 1%nat ok; Resume 1%nat Done; Start 3%nat;
   Resume 1%nat ok; Resume 0%nat Done; Resume 1%nat Done;
   Resume 1%nat (Result Timeout {| isSuccess := false |})].

(** ** Runs without obstacle or failure *)

(** Every reading is at least 150 and every answer to a movement command
    is a success. *)
Definition quiet (w : world) (e : event) : bool :=
  match e with
  | Deliver _ (ObserveInfraredDistanceResponse distance) => 150 <=? distance
  | Resume tid (Result t r) =>
      match tasks w !! tid with
      | Some (Suspended (MoveRobot _ _) _) => is_Success t && isSuccess r
      | _ => true
      end
  | _ => true
  end.

Fixpoint all_quiet (w : world) (es : list event) : bool :=
  match es with
  | [] => true
  | e :: es' =>
      quiet w e
      && match step w e with
         | Some w' => all_quiet w' es'
         | None => true
         end
  end.

(** The awaited calls of task 1 that have been answered. *)
Definition answered (es : list event) : nat :=
  length (List.filter (turn_of 1) es).

(** The answers that take the sequence of task 1 to its end. *)
Definition script : list answer := Done :: answers 4 ok.

(** Task 1 of [running] after [n] answers. *)
Definition phase (n : nat) : task :=
  task_of_status
    (snd (solo ({| STOP_MOVE_SEQUENCE := false; observers := [] |}, [],
                Blocked (asyncio_sleep 0) (fun _ => move_sequence))
            (map (fun a => (a, id)) (firstn n script)))).

(** What holds of a quiet run from [running] when task 1 has had [n]
    answers: nothing but the log and the tasks has changed, the tasks
    after task 1 handle readings that are not too close, and the commands
    so far are the first ones of [full]. *)
Record steady (n : nat) (w : world) : Prop := {
  steady_phase : (n <= 10)%nat;
  steady_memory :
    memory w = {| STOP_MOVE_SEQUENCE := false; observers := listening_stopped |};
  steady_main : tasks w !! 0%nat = Some idle;
  steady_sequence : tasks w !! 1%nat = Some (phase n);
  steady_readers : forall tid t,
    (2 <= tid)%nat -> tasks w !! tid = Some t ->
    t = Finished
    \/ exists distance,
         150 <= distance
         /\ t = Pending (observe_infrared_distance_handler 1 distance);
  steady_commands : commands (history w) = firstn (1 + (n + 1) / 2) full
}.

(** ** Runs with one start *)

(** ["hello."] is heard a second time while the announcement of the
    start is still playing. *)
Definition double_hello : list event :=
  startup alphamini true
  ++ [Deliver 0%nat (SpeechRecogniseResponse "hello."); Start 1%nat;
      Deliver 0%nat (SpeechRecogniseResponse "hello."); Start 2%nat;
      Resume 1%nat ok; Resume 2%nat ok]
  ++ concat (repeat [Resume 1%nat Done; Resume 2%nat Done;
                     Resume 1%nat ok; Resume 2%nat ok] 4)
  ++ [Resume 1%nat Done; Resume 2%nat Done; Resume 1%nat ok; Resume 2%nat ok].

(** An utterance that is no command, before ["hello."]. *)
Definition small_talk : list event :=
  [Deliver 0%nat (SpeechRecogniseResponse "good morning"); Start 1%nat;
   Resume 0%nat Done].

(** The handler of ["hello."] runs as task 2 and gets all its answers;
    meanwhile ["finish."] is recognised and handled as task 3, a reading
    of 300 comes in and [main] wakes up. *)
Definition busy_run : list event :=
  [Start 2%nat;
   Deliver 0%nat (SpeechRecogniseResponse "finish.");
   Resume 2%nat ok; Start 3%nat; Resume 2%nat Done;
   Deliver 1%nat (ObserveInfraredDistanceResponse 300);
   Resume 3%nat ok;
   Resume 2%nat ok; Start 4%nat; Resume 2%nat Done;
   Resume 3%nat Done; Resume 3%nat Done;
   Resume 2%nat ok; Resume 2%nat Done;
   Resume 2%nat ok; Resume 0%nat Done; Resume 2%nat Done;
   Resume 2%nat ok; Resume 2%nat Done;
   Resume 2%nat (Result Timeout {| isSuccess := false |})].

(** The steps of the plan and the announcement of the end. *)
Definition milestone (o : op) : bool :=
  match o with
  | MoveRobot _ _ => true
  | StartPlayTTS text =>
      String.eqb text "Finished cleaning, returning to home position"
  | _ => false
  end.

Definition milestones (l : list action) : list op :=
  List.filter milestone (calls l).

(** The speech observer of [main], listening or not. *)
Definition speech_observer (b : bool) : observer :=
  {| class := ObserveSpeechRecognise;
     handler := Some (speech_lambda 0); started := b |}.

(** The handler of ["finish."] after [n] answers. *)
Definition parting (n : nat) : task :=
  task_of_status
    (snd (solo (perform (observe_speech_handler 0 "finish.")
                  {| STOP_MOVE_SEQUENCE := false; observers := [] |})
            (map (fun a => (a, id)) (firstn n [ok; Done; Done])))).

(** The tasks that take no part in the sequence: [main], the handlers
    of utterances other than ["hello."], at any point of their work, and
    the handlers of readings that are not too close. *)
Inductive bystander : task -> Prop :=
| bystander_main : bystander idle
| bystander_finished : bystander Finished
| bystander_utterance text :
    lower (strip text) <> "hello." ->
    bystander (Pending (observe_speech_handler 0 text))
| bystander_parting n : bystander (parting n)
| bystander_reading distance :
    150 <= distance ->
    bystander (Pending (observe_infrared_distance_handler 1 distance)).

(** The handler of ["hello."] after [n] turns, the first of which starts
    it. *)
Definition stage (n : nat) : task :=
  match n with
  | 0%nat | 1%nat =>
      task_of_status
        (snd (perform (observe_speech_handler 0 "hello.")
                {| STOP_MOVE_SEQUENCE := false; observers := [] |}))
  | S (S n') => phase n'
  end.

(** The observers before and after the handler of ["hello."] has had its
    second turn. *)
Definition shape (n : nat) (l : list observer) : Prop :=
  if (n <=? 1)%nat then exists b, l = [speech_observer b]
  else l = listening_stopped.

(** The turns task [tid] has in some events. *)
Definition turns (tid : nat) (es : list event) : nat :=
  length (List.filter (turn_of tid) es).

(** No utterance has been ["hello."] so far. *)
Record waiting (w : world) : Prop := {
  waiting_flag : STOP_MOVE_SEQUENCE (memory w) = false;
  waiting_observers : shape 0 (observers (memory w));
  waiting_tasks : forall tid t, tasks w !! tid = Some t -> bystander t;
  waiting_milestones : milestones (history w) = []
}.

(** Task [h] is the handler of ["hello."] after [n] turns. *)
Definition started_as (h n : nat) (l : list task) : Prop :=
  match n with
  | 0%nat =>
      exists text,
        lower (strip text) = "hello."
        /\ l !! h = Some (Pending (observe_speech_handler 0 text))
  | _ => l !! h = Some (stage n)
  end.

(** One utterance has been ["hello."]; its handler is task [h] and has
    had [n] turns. *)
Record underway (h n : nat) (w : world) : Prop := {
  underway_turns : (n <= 12)%nat;
  underway_flag : STOP_MOVE_SEQUENCE (memory w) = false;
  underway_observers : shape n (observers (memory w));
  underway_task : started_as h n (tasks w);
  underway_others : forall tid t,
    tid <> h -> tasks w !! tid = Some t -> bystander t;
  underway_milestones :
    milestones (history w) = firstn ((n - 1) / 2) (plan ++ [announcement])
}.

(** ** What to look for in a run *)

(** Movement commands. *)
Definition moving (a : action) : bool :=
  match a with Call (MoveRobot _ _) => true | _ => false end.

(** Leaving the program mode and releasing the robot. *)
Definition leaving (a : action) : bool :=
  match a with
  | Call Mini_quit_program | Call Mini_release => true
  | _ => false
  end.

(** What only an obstacle handler does. *)
Definition tripping (a : action) : bool :=
  match a with
  | Store true => true
  | Call (MoveRobot BACKWARD 5) => true
  | Call (StartPlayTTS text) =>
      String.eqb text "Obstacle detected, stopping movement."
  | _ => false
  end.

(** Subscribing the speech observer of [main] again. *)
Definition listening_again (a : action) : bool :=
  match a with Started 0 => true | _ => false end.

(** Messages that the handler of line 93 does not take for ["hello."],
    and those it does not take for ["finish."]. *)
Definition not_hello (msg : message) : Prop :=
  match msg with
  | SpeechRecogniseResponse text => lower (strip text) <> "hello."
  | ObserveInfraredDistanceResponse _ => True
  end.

Definition not_finish (msg : message) : Prop :=
  match msg with
  | SpeechRecogniseResponse text => lower (strip text) <> "finish."
  | ObserveInfraredDistanceResponse _ => True
  end.

Definition not_close (msg : message) : Prop :=
  match msg with
  | ObserveInfraredDistanceResponse distance => 150 <= distance
  | SpeechRecogniseResponse _ => True
  end.

Definition any_message (msg : message) : Prop := True.

Definition speech_only (h : closure) : Prop :=
  match h with speech_lambda _ => True | infrared_lambda _ => False end.

Definition any_closure (h : closure) : Prop := True.

(** The closures of observers other than the first. *)
Definition elsewhere (h : closure) : Prop :=
  match h with
  | infrared_lambda observer => observer <> 0%nat
  | speech_lambda _ => True
  end.

Definition any_index (i : nat) : Prop := True.

(** The world when [main] has subscribed the speech observer. *)
Definition listening (dev : WiFiDevice) : world :=
  {| memory :=
       {| STOP_MOVE_SEQUENCE := false;
          observers :=
            [{| class := ObserveSpeechRecognise;
                handler := Some (speech_lambda 0); started := true |}] |};
     tasks := [idle];
     log :=
       map (pair 0%nat)
         [Call (Mini_get_device_by_name "00345" 10);
          Printed (Device_Found (Some dev));
          Call (Mini_connect dev);
          Call Mini_enter_program;
          Construct 0 ObserveSpeechRecognise;
          Handler 0 (speech_lambda 0);
          Started 0;
          Call (asyncio_sleep 1)] |}.

(** The other tasks set the flag. *)
Definition asserting (others : shared -> shared) : Prop :=
  forall m, STOP_MOVE_SEQUENCE (others m) = true.

(** Texts made of blanks only. *)
Definition blank (s : string) : Prop :=
  forallb isspace (list_ascii_of_string s) = true.

(** A close reading is delivered and handled as task [tid], the retreat
    works, and the sequence it restarts gets all its answers. *)
Definition late_obstacle (tid : nat) (distance : Z) : list event :=
  [Deliver 1%nat (ObserveInfraredDistanceResponse distance); Start tid]
  ++ map (Resume tid) ([ok; Done; ok; Done; Done] ++ answers 4 ok).

(** Utterances that are no command, then ["finish."]. *)
Definition chatter : list event :=
  startup alphamini true
  ++ [Deliver 0%nat (SpeechRecogniseResponse "Hello");
      Deliver 0%nat (SpeechRecogniseResponse "go left.");
      Start 1%nat; Start 2%nat; Resume 0%nat Done;
      Deliver 0%nat (SpeechRecogniseResponse "finish."); Start 3%nat;
      Resume 3%nat ok; Resume 3%nat Done; Resume 3%nat Done;
      Resume 0%nat Done].

(** A run with an obstacle and a failed step, and an utterance that is
    no command while it goes on. *)
Definition eventful : list event :=
  startup alphamini false ++ hello "hello."
  ++ [Deliver 0%nat (SpeechRecogniseResponse "stop");
      Resume 1%nat ok; Resume 1%nat Done;
      Deliver 1%nat (ObserveInfraredDistanceResponse 40); Start 2%nat;
      Resume 1%nat (Result Timeout {| isSuccess := false |});
      Resume 2%nat ok; Resume 2%nat Done; Resume 2%nat ok].

(** ** Actions that a coroutine never does *)

Section Never.

(** The actions that must not happen, what is known of the index of a
    new observer, the closures that may be stored and the messages
    that may be delivered. *)
Variable bad : action -> bool.
Variable fresh : nat -> Prop.
Variable trusted : closure -> Prop.
Variable may : message -> Prop.

(** No stretch of [c], whatever the answers and the flag, does a bad
    action or stores a closure that is not trusted. *)
Fixpoint never {A} (c : coro A) : Prop :=
  match c with
  | Ret _ => True
  | Await o k => bad (Call o) = false /\ forall r, never (k r)
  | Forever o => bad (Call o) = false
  | LoadStop k => forall b, never (k b)
  | StoreStop b k => bad (Store b) = false /\ never k
  | NewObserver c k =>
      forall i, fresh i -> bad (Construct i c) = false /\ never (k i)
  | SetHandler obs h k =>
      bad (Handler obs h) = false /\ trusted h /\ never k
  | ObserverStart obs k => bad (Started obs) = false /\ never k
  | ObserverStop obs k => bad (Stopped obs) = false /\ never k
  | Console l k => bad (Printed l) = false /\ never k
  end.

Definition never_status {A} (st : status A) : Prop :=
  match st with
  | Returned _ => True
  | Blocked o k => forall r, never (k r)
  end.

Definition never_task (t : task) : Prop :=
  match t with
  | Pending c => never c
  | Suspended o k => forall r, never (k r)
  | Finished => True
  end.

(** A memory in which only trusted closures are stored and every later
    observer index is fresh. *)
Record sound (m : shared) : Prop := {
  sound_fresh : forall i, (length (observers m) <= i)%nat -> fresh i;
  sound_handlers : forall j ob h,
    observers m !! j = Some ob -> handler ob = Some h -> trusted h
}.

(** The flag and the subscriptions that bad actions would set stay as
    they are or are cleared. *)
Definition kept (m m' : shared) : Prop :=
  (bad (Store true) = true ->
   STOP_MOVE_SEQUENCE m' = true -> STOP_MOVE_SEQUENCE m = true)
  /\ forall j ob',
       bad (Started j) = true ->
       observers m' !! j = Some ob' -> started ob' = true ->
       exists ob, observers m !! j = Some ob /\ started ob = true.

Lemma kept_refl m : kept m m.
Proof. split; [auto |]. intros j ob' _ H1 H2. eauto. Qed.

Lemma kept_trans m1 m2 m3 : kept m1 m2 -> kept m2 m3 -> kept m1 m3.
Proof.
  intros [F12 S12] [F23 S23]. split; [auto |].
  intros j ob3 Hb H3 Hs3.
  destruct (S23 j ob3 Hb H3 Hs3) as (ob2 & H2 & Hs2). eauto.
Qed.

Lemma sound_alter m f obs :
  sound m ->
  (forall ob h, handler (f ob) = Some h -> handler ob = Some h \/ trusted h) ->
  sound (set_observers (alter f obs) m).
Proof.
  intros [Hf Hh] Hfh. split; simpl.
  - intros i. rewrite length_alter. apply Hf.
  - intros j ob h Hj Hob. rewrite list_lookup_alter in Hj.
    destruct (decide (obs = j)) as [-> |]; [| eauto].
    destruct (observers m !! j) as [ob0 |] eqn:E; [| discriminate].
    injection Hj as <-. destruct (Hfh _ _ Hob); eauto.
Qed.

Lemma kept_alter_started m obs b :
  (b = true -> bad (Started obs) = false) ->
  kept m (set_observers (alter (with_started b) obs) m).
Proof.
  intros Hb. split; [auto |]. simpl. intros j ob' Hbad Hj Hs.
  rewrite list_lookup_alter in Hj.
  destruct (decide (obs = j)) as [-> |]; [| eauto].
  destruct (observers m !! j) as [ob0 |] eqn:E; [| discriminate].
  injection Hj as <-. simpl in Hs. subst b.
  rewrite Hb in Hbad by reflexivity. discriminate.
Qed.

Lemma kept_alter_handler m obs h :
  kept m (set_observers (alter (with_handler h) obs) m).
Proof.
  split; [auto |]. simpl. intros j ob' Hbad Hj Hs.
  rewrite list_lookup_alter in Hj.
  destruct (decide (obs = j)) as [-> |]; [| eauto].
  destruct (observers m !! j) as [ob0 |] eqn:E; [| discriminate].
  injection Hj as <-. simpl in Hs. eauto.
Qed.

(** A stretch of a coroutine that never does a bad action does none,
    keeps the memory sound and leaves a coroutine of the same kind. *)
Lemma perform_never {A} (c : coro A) : forall m,
  never c -> sound m ->
  Forall (fun a => bad a = false) (snd (fst (perform c m)))
  /\ sound (fst (fst (perform c m)))
  /\ kept m (fst (fst (perform c m)))
  /\ never_status (snd (perform c m)).
Proof.
  induction c as [a | o k IH | o | k IH | b k IH | cl k IH | obs h k IH
                 | obs k IH | obs k IH | l k IH]; intros m Hn Hm; simpl in *.
  - refine (conj _ (conj Hm (conj (kept_refl m) I))). constructor.
  - destruct Hn as [Ho Hk].
    refine (conj _ (conj Hm (conj (kept_refl m) Hk))). repeat constructor.
    exact Ho.
  - refine (conj _ (conj Hm (conj (kept_refl m) (fun _ => Hn)))).
    repeat constructor. exact Hn.
  - apply IH; auto.
  - destruct Hn as [Hb Hk].
    assert (Hm' : sound (set_STOP_MOVE_SEQUENCE b m)).
    { destruct Hm. split; auto. }
    destruct (IH (set_STOP_MOVE_SEQUENCE b m) Hk Hm') as (Ha & Hs & Hkept & Hst).
    destruct (perform k (set_STOP_MOVE_SEQUENCE b m)) as [[m' acts] st].
    simpl in *. refine (conj _ (conj Hs (conj _ Hst))); [constructor; assumption |].
    eapply kept_trans; [| exact Hkept]. split; [| simpl; eauto].
    simpl. intros Hbad ->. rewrite Hbad in Hb. discriminate.
  - destruct (Hn (length (observers m))) as [Hb Hk].
    { destruct Hm as [Hf _]. apply Hf. lia. }
    set (m1 := set_observers _ m).
    assert (Hm1 : sound m1).
    { destruct Hm as [Hf Hh]. split; simpl.
      - intros i. rewrite length_app. simpl. intros. apply Hf. lia.
      - intros j ob h Hj Hob. apply lookup_app_Some in Hj as [Hj | [_ Hj]].
        + eauto.
        + apply list_lookup_singleton_Some in Hj as [_ <-]. discriminate. }
    destruct (IH _ m1 Hk Hm1) as (Ha & Hs & Hkept & Hst).
    destruct (perform (k (length (observers m))) m1) as [[m' acts] st].
    simpl in *. refine (conj _ (conj Hs (conj _ Hst))); [constructor; assumption |].
    eapply kept_trans; [| exact Hkept]. split; [auto |]. simpl.
    intros j ob' Hbad Hj Hs'. apply lookup_app_Some in Hj as [Hj | [_ Hj]].
    + eauto.
    + apply list_lookup_singleton_Some in Hj as [_ <-]. discriminate.
  - destruct Hn as (Hb & Hh & Hk).
    assert (Hm1 : sound (set_observers (alter (with_handler h) obs) m)).
    { apply sound_alter; [exact Hm |]. intros ob h' Hob. simpl in Hob.
      right. congruence. }
    destruct (IH _ Hk Hm1) as (Ha & Hs & Hkept & Hst).
    destruct (perform k _) as [[m' acts] st].
    simpl in *. refine (conj _ (conj Hs (conj _ Hst))); [constructor; assumption |].
    eapply kept_trans; [apply (kept_alter_handler m obs h) | exact Hkept].
  - destruct Hn as (Hb & Hk).
    assert (Hm1 : sound (set_observers (alter (with_started true) obs) m)).
    { apply sound_alter; [exact Hm |]. intros ob h' Hob. left. exact Hob. }
    destruct (IH _ Hk Hm1) as (Ha & Hs & Hkept & Hst).
    destruct (perform k _) as [[m' acts] st].
    simpl in *. refine (conj _ (conj Hs (conj _ Hst))); [constructor; assumption |].
    eapply kept_trans;
      [apply (kept_alter_started m obs true); intros _; exact Hb
      | exact Hkept].
  - destruct Hn as (Hb & Hk).
    assert (Hm1 : sound (set_observers (alter (with_started false) obs) m)).
    { apply sound_alter; [exact Hm |]. intros ob h' Hob. left. exact Hob. }
    destruct (IH _ Hk Hm1) as (Ha & Hs & Hkept & Hst).
    destruct (perform k _) as [[m' acts] st].
    simpl in *. refine (conj _ (conj Hs (conj _ Hst))); [constructor; assumption |].
    eapply kept_trans;
      [apply (kept_alter_started m obs false); intros E; discriminate E
      | exact Hkept].
  - destruct Hn as (Hb & Hk).
    destruct (IH _ Hk Hm) as (Ha & Hs & Hkept & Hst).
    destruct (perform k m) as [[m' acts] st].
    simpl in *. refine (conj _ (conj Hs (conj Hkept Hst))).
    constructor; assumption.
Qed.

(** Trusted closures, called on messages that may be delivered, give
    coroutines of that kind. *)
Hypothesis trusted_invoke : forall h msg c,
  trusted h -> may msg -> invoke h msg = Some c -> never c.

Definition permitted (e : event) : Prop :=
  match e with
  | Deliver _ msg => may msg
  | Start _ | Resume _ _ => True
  end.

Record safe (w : world) : Prop := {
  safe_memory : sound (memory w);
  safe_tasks : Forall never_task (tasks w)
}.

Lemma advance_safe w tid c :
  safe w -> never c ->
  safe (advance w tid c)
  /\ kept (memory w) (memory (advance w tid c))
  /\ exists acts,
       log (advance w tid c) = log w ++ acts
       /\ Forall (fun e => bad (snd e) = false) acts.
Proof.
  intros [Hm Ht] Hc. unfold advance.
  destruct (perform_never c (memory w) Hc Hm) as (Ha & Hs & Hk & Hst).
  destruct (perform c (memory w)) as [[m acts] st]. simpl in *.
  split; [| split; [exact Hk |]].
  - split; simpl; [exact Hs |]. apply Forall_insert; [exact Ht |].
    destruct st; simpl; [exact I | exact Hst].
  - exists (map (pair tid) acts). split; [reflexivity |].
    apply Forall_map. simpl. exact Ha.
Qed.

Lemma step_safe w e w' :
  safe w -> permitted e -> step w e = Some w' ->
  safe w'
  /\ kept (memory w) (memory w')
  /\ exists acts,
       log w' = log w ++ acts
       /\ Forall (fun e => bad (snd e) = false) acts.
Proof.
  intros Hw He Hs.
  assert (Hsame : safe w /\ kept (memory w) (memory w)
                  /\ exists acts, log w = log w ++ acts
                       /\ Forall (fun e => bad (snd e) = false) acts).
  { split; [exact Hw | split; [apply kept_refl |]].
    exists []. rewrite app_nil_r. split; [reflexivity | constructor]. }
  destruct e as [obs msg | tid | tid a]; simpl in *.
  - destruct (observers (memory w) !! obs) as [ob |] eqn:Hob; [| discriminate].
    destruct (handler ob) as [h |] eqn:Hh.
    + destruct (invoke h msg) as [c |] eqn:Hi; [| discriminate].
      destruct (started ob); injection Hs as <-; [| exact Hsame].
      destruct Hw as [Hm Ht]. split; [| split; [apply kept_refl |]].
      * split; simpl; [exact Hm |]. apply Forall_app. split; [exact Ht |].
        repeat constructor. simpl.
        eapply trusted_invoke; [| exact He | exact Hi].
        destruct Hm as [_ Hhs]. eapply Hhs; eassumption.
      * exists []. simpl. rewrite app_nil_r. split; [reflexivity | constructor].
    + destruct (started ob); [discriminate |]. injection Hs as <-. exact Hsame.
  - destruct (tasks w !! tid) as [[c | o k |] |] eqn:Ht; try discriminate.
    injection Hs as <-. apply advance_safe; [exact Hw |].
    destruct Hw as [_ Hts]. rewrite Forall_lookup in Hts. exact (Hts _ _ Ht).
  - destruct (tasks w !! tid) as [[c | o k |] |] eqn:Ht; try discriminate.
    destruct (fits o a) as [r |]; [| discriminate].
    injection Hs as <-. apply advance_safe; [exact Hw |].
    destruct Hw as [_ Hts]. rewrite Forall_lookup in Hts.
    exact (Hts _ _ Ht r).
Qed.

(** From a safe world, along permitted events, no bad action is ever
    logged, and the flag and the subscriptions that bad actions would
    set are never set. *)
Lemma run_safe es : forall w w',
  safe w -> Forall permitted es -> run w es = Some w' ->
  safe w'
  /\ kept (memory w) (memory w')
  /\ exists acts,
       log w' = log w ++ acts
       /\ Forall (fun e => bad (snd e) = false) acts.
Proof.
  induction es as [| e es IH]; intros w w' Hw Hes Hr; simpl in Hr.
  - injection Hr as <-. split; [exact Hw | split; [apply kept_refl |]].
    exists []. rewrite app_nil_r. split; [reflexivity | constructor].
  - destruct (step w e) as [w1 |] eqn:Hs; [| discriminate].
    apply Forall_cons_1 in Hes as [He Hes].
    destruct (step_safe w e w1 Hw He Hs) as (Hw1 & Hk1 & acts1 & Hl1 & Ha1).
    destruct (IH w1 w' Hw1 Hes Hr) as (Hw' & Hk' & acts & Hl & Ha).
    split; [exact Hw' | split; [eapply kept_trans; eassumption |]].
    exists (acts1 ++ acts). split.
    + rewrite Hl, Hl1, app_assoc. reflexivity.
    + apply Forall_app. split; assumption.
Qed.

End Never.


(** ** Text *)

(** Blanks around the text and capitals do not matter, the final full
    stop and blanks inside the text do. *)
Lemma strip_lower_examples :
  lower (strip "  Hello. ") = "hello."
  /\ lower (strip "FINISH.") = "finish."
  /\ strip " to the  left " = "to the  left"
  /\ lower (strip "hello") <> "hello."
  /\ lower (strip "hello .") <> "hello.".
Proof. repeat split; discriminate. Qed.

(** The characters that [str.isspace] accepts, by code point. *)
Lemma isspace_table :
  List.filter (fun n => isspace (ascii_of_nat n)) (seq 0 256)
  = [9; 10; 11; 12; 13; 28; 29; 30; 31; 32; 133; 160]%nat.
Proof. vm_compute. reflexivity. Qed.

(** The characters that [str.lower] changes, by code point, and what it
    makes of them. *)
Lemma lower_char_table :
  List.filter
    (fun n => negb (nat_of_ascii (lower_char (ascii_of_nat n)) =? n)%nat)
    (seq 0 256)
  = (seq 65 26 ++ seq 192 23 ++ seq 216 7)%nat
  /\ forall c,
       lower_char c = c
       \/ nat_of_ascii (lower_char c) = (nat_of_ascii c + 32)%nat.
Proof.
  split; [vm_compute; reflexivity |].
  intros c.
  destruct c as [[] [] [] [] [] [] [] []]; vm_compute; auto.
Qed.

(** A no-break space or a NEXT LINE at either end is stripped like a
    blank, and the capitals beyond Z are lowered. *)
Lemma strip_lower_beyond_ascii :
  lower (strip (String (ascii_of_nat 160) "Hello.")) = "hello."
  /\ strip ("finish." ++ String (ascii_of_nat 133) "") = "finish."
  /\ lower (String (ascii_of_nat 201) "") = String (ascii_of_nat 233) ""
  /\ lower (String (ascii_of_nat 215) "") = String (ascii_of_nat 215) "".
Proof. repeat split. Qed.

(** [lstrip] stops at the first character that is not a blank. *)
Lemma lstrip_stops (s : list ascii) :
  match lstrip s with
  | c :: _ => isspace c = false
  | [] => True
  end.
Proof.
  induction s as [| c s IH]; simpl; [exact I |].
  destruct (isspace c) eqn:Hc; [exact IH | exact Hc].
Qed.

(** ** Proof steps for [solo] *)

Lemma solo_begin {A} (c : coro A) m env st :
  perform c m = st -> solo (perform c m) env = solo st env.
Proof. intros ->. reflexivity. Qed.

Lemma solo_resume {A} (m : shared) acts o (k : reply o -> coro A) a others
    env r m' acts' st' :
  fits o a = Some r ->
  perform (k r) (others m) = (m', acts', st') ->
  solo (m, acts, Blocked o k) ((a, others) :: env)
  = solo (m', acts ++ acts', st') env.
Proof. intros Hf Hp. simpl. rewrite Hf, Hp. reflexivity. Qed.

(** The actions already done are a prefix of the result. *)
Lemma solo_prefix {A} env : forall (m : shared) pre acts (st : status A),
  solo (m, pre ++ acts, st) env =
  let '(m', acts', st') := solo (m, acts, st) env in (m', pre ++ acts', st').
Proof.
  induction env as [| [a others] env IH]; intros m pre acts st.
  - reflexivity.
  - destruct st as [x | o k]; [reflexivity |].
    simpl. destruct (fits o a) as [r |]; [| reflexivity].
    destruct (perform (k r) (others m)) as [[m' acts'] st'].
    rewrite <- app_assoc. apply IH.
Qed.

(** A read of the flag after calm interference finds it cleared. *)
Ltac still_clear :=
  repeat first [ reflexivity | match goal with H : calm _ |- _ => apply H end ].

Ltac flag_clear :=
  repeat match goal with
  | |- context [STOP_MOVE_SEQUENCE (?f ?m)] =>
      let E := fresh in
      assert (E : STOP_MOVE_SEQUENCE (f m) = false) by still_clear;
      rewrite E; clear E
  end.

(** The first stretch of the coroutine, then one answer at a time; the
    [_with] forms rewrite the test the stretch branches on. *)
Ltac begin := erewrite solo_begin; [ | cbn; flag_clear; reflexivity ].

Ltac begin_with H :=
  erewrite solo_begin; [ | cbn; rewrite H; cbn; reflexivity ].

Ltac resume :=
  erewrite solo_resume; [ | reflexivity | cbn; flag_clear; reflexivity ];
  cbn [app].

Ltac resume_with H :=
  erewrite solo_resume; [ | reflexivity | cbn; rewrite H; cbn; reflexivity ];
  cbn [app].

Ltac calm_hyps :=
  repeat match goal with
  | H : Forall _ (_ :: _) |- _ => apply Forall_cons_1 in H; destruct H
  | H : Forall _ [] |- _ => clear H
  end.

(** ** Facts about the event loop *)

Lemma run_app es1 : forall w es2,
  run w (es1 ++ es2)
  = match run w es1 with Some w1 => run w1 es2 | None => None end.
Proof.
  induction es1 as [| e es1 IH]; intros w es2; simpl; [reflexivity |].
  destruct (step w e); [apply IH | reflexivity].
Qed.

(** A message for an observer that is not subscribed changes nothing. *)
Lemma step_dropped w obs msg ob w' :
  observers (memory w) !! obs = Some ob -> started ob = false ->
  step w (Deliver obs msg) = Some w' -> w' = w.
Proof.
  intros Hob Hs. simpl. rewrite Hob, Hs.
  destruct (handler ob) as [h |]; [destruct (invoke h msg) |]; congruence.
Qed.

Lemma alter_fresh (f : observer -> observer) (l : list observer) (x : observer) :
  alter f (length l) (l ++ [x]) = l ++ [f x].
Proof.
  rewrite <- (Nat.add_0_r (length l)). rewrite alter_app_r. reflexivity.
Qed.

Lemma commands_app l1 l2 : commands (l1 ++ l2) = commands l1 ++ commands l2.
Proof.
  unfold commands, calls. rewrite omap_app, List.filter_app. reflexivity.
Qed.

Lemma history_advance w tid c :
  history (advance w tid c) = history w ++ snd (fst (perform c (memory w))).
Proof.
  unfold advance, history. destruct (perform c (memory w)) as [[m acts] st].
  simpl. rewrite map_app, map_map. simpl. rewrite map_id. reflexivity.
Qed.

Lemma own_app tid l1 l2 : own tid (l1 ++ l2) = own tid l1 ++ own tid l2.
Proof. unfold own. rewrite List.filter_app, map_app. reflexivity. Qed.

Lemma own_same tid acts : own tid (map (pair tid) acts) = acts.
Proof.
  unfold own. induction acts as [| a acts IH]; simpl; [reflexivity |].
  rewrite Nat.eqb_refl. simpl. f_equal. exact IH.
Qed.

Lemma own_other tid tid' acts :
  tid' <> tid -> own tid (map (pair tid') acts) = [].
Proof.
  intros Hne. unfold own. induction acts as [| a acts IH]; simpl; [reflexivity |].
  destruct (Nat.eqb_spec tid' tid); [contradiction | exact IH].
Qed.

Lemma advance_same w tid c t :
  tasks w !! tid = Some t ->
  tasks (advance w tid c) !! tid
  = Some (task_of_status (snd (perform c (memory w))))
  /\ own tid (log (advance w tid c))
     = own tid (log w) ++ snd (fst (perform c (memory w))).
Proof.
  intros Ht. unfold advance.
  destruct (perform c (memory w)) as [[m acts] st]. simpl. split.
  - apply list_lookup_insert_eq. eapply lookup_lt_Some, Ht.
  - rewrite own_app, own_same. reflexivity.
Qed.

Lemma advance_other w tid tid' c :
  tid' <> tid ->
  tasks (advance w tid' c) !! tid = tasks w !! tid
  /\ own tid (log (advance w tid' c)) = own tid (log w).
Proof.
  intros Hne. unfold advance.
  destruct (perform c (memory w)) as [[m acts] st]. simpl. split.
  - apply list_lookup_insert_ne. exact Hne.
  - rewrite own_app, own_other, app_nil_r by exact Hne. reflexivity.
Qed.

(** A step that is not a turn of task [tid] leaves the task and its
    actions as they are. *)
Lemma step_other w e w' tid t :
  step w e = Some w' -> turn_of tid e = false ->
  tasks w !! tid = Some t ->
  tasks w' !! tid = Some t /\ own tid (log w') = own tid (log w).
Proof.
  intros Hs Hturn Ht. destruct e as [obs msg | tid' | tid' a]; simpl in *.
  - destruct (observers (memory w) !! obs) as [ob |]; [| discriminate].
    destruct (handler ob) as [h |].
    + destruct (invoke h msg) as [c |]; [| discriminate].
      destruct (started ob); inversion Hs; subst; simpl; [| auto].
      split; [| reflexivity]. rewrite lookup_app_l; [exact Ht |].
      eapply lookup_lt_Some, Ht.
    + destruct (started ob); inversion Hs; subst; auto.
  - apply Nat.eqb_neq in Hturn.
    destruct (tasks w !! tid') as [[c | o k |] |]; try discriminate.
    inversion Hs; subst.
    destruct (advance_other w tid tid' c Hturn) as [-> ->]. auto.
  - apply Nat.eqb_neq in Hturn.
    destruct (tasks w !! tid') as [[c | o k |] |]; try discriminate.
    destruct (fits o a) as [r |]; [| discriminate].
    inversion Hs; subst.
    destruct (advance_other w tid tid' (k r) Hturn) as [-> ->]. auto.
Qed.

(** ** Tasks of the event loop run as [solo] describes *)

Lemma finished_stays es : forall w w' tid,
  run w es = Some w' -> tasks w !! tid = Some Finished ->
  tasks w' !! tid = Some Finished /\ own tid (log w') = own tid (log w).
Proof.
  induction es as [| e es IH]; intros w w' tid Hr Ht; simpl in Hr.
  - inversion Hr; subst. auto.
  - destruct (step w e) as [w1 |] eqn:Hs; [| discriminate].
    assert (Hturn : turn_of tid e = false).
    { destruct e as [? ? | tid' | tid' a]; simpl in *; [reflexivity | |];
        destruct (Nat.eqb_spec tid' tid); subst; try reflexivity;
        rewrite Ht in Hs; discriminate. }
    destruct (step_other w e w1 tid _ Hs Hturn Ht) as [Ht1 Hl1].
    destruct (IH w1 w' tid Hr Ht1) as [Ht2 Hl2].
    split; [exact Ht2 | congruence].
Qed.

Lemma suspended_runs_solo es : forall w w' tid o k m0,
  run w es = Some w' -> tasks w !! tid = Some (Suspended o k) ->
  exists env m' acts st,
    solo (m0, [], Blocked o k) env = (m', acts, st)
    /\ own tid (log w') = own tid (log w) ++ acts
    /\ tasks w' !! tid = Some (task_of_status st).
Proof.
  induction es as [| e es IH]; intros w w' tid o k m0 Hr Ht; simpl in Hr.
  - inversion Hr; subst. exists [], m0, [], (Blocked o k).
    rewrite app_nil_r. auto.
  - destruct (step w e) as [w1 |] eqn:Hs; [| discriminate].
    destruct (turn_of tid e) eqn:Hturn.
    + destruct e as [? ? | tid' | tid' a]; simpl in Hturn; [discriminate | |];
        apply Nat.eqb_eq in Hturn; subst tid'; simpl in Hs; rewrite Ht in Hs;
        [discriminate |].
      destruct (fits o a) as [r |] eqn:Hf; [| discriminate].
      inversion Hs; subst w1; clear Hs.
      destruct (advance_same w tid (k r) _ Ht) as [Ht1 Hl1].
      destruct (perform (k r) (memory w)) as [[m1 acts1] st1] eqn:Hp.
      simpl in Ht1, Hl1.
      destruct st1 as [x | o1 k1]; simpl in Ht1.
      * destruct (finished_stays es _ w' tid Hr Ht1) as [Ht2 Hl2].
        exists [(a, fun _ => memory w)], m1, acts1, (Returned x).
        simpl. rewrite Hf, Hp. simpl. repeat split; [congruence | exact Ht2].
      * destruct (IH _ w' tid o1 k1 m1 Hr Ht1)
          as (env & m' & acts & st & Hsolo & Hl2 & Ht2).
        exists ((a, fun _ => memory w) :: env), m', (acts1 ++ acts), st.
        simpl. rewrite Hf, Hp. simpl.
        rewrite <- (app_nil_r acts1) at 1. rewrite solo_prefix, Hsolo.
        repeat split; [| exact Ht2]. rewrite Hl2, Hl1, app_assoc. reflexivity.
    + destruct (step_other w e w1 tid _ Hs Hturn Ht) as [Ht1 Hl1].
      destruct (IH w1 w' tid o k m0 Hr Ht1)
        as (env & m' & acts & st & Hsolo & Hl2 & Ht2).
      exists env, m', acts, st. repeat split; [exact Hsolo | congruence | exact Ht2].
Qed.

(** Whatever the loop does, a task does what [solo] describes for some
    answers and some behaviour of the other tasks: either it has not been
    started, or its actions so far are those of a solo run of its body. *)
Lemma task_runs_solo es : forall w w' tid c,
  run w es = Some w' -> tasks w !! tid = Some (Pending c) ->
  (tasks w' !! tid = Some (Pending c) /\ own tid (log w') = own tid (log w))
  \/ exists m env m' acts st,
       solo (perform c m) env = (m', acts, st)
       /\ own tid (log w') = own tid (log w) ++ acts
       /\ tasks w' !! tid = Some (task_of_status st).
Proof.
  induction es as [| e es IH]; intros w w' tid c Hr Ht; simpl in Hr.
  - inversion Hr; subst. left. auto.
  - destruct (step w e) as [w1 |] eqn:Hs; [| discriminate].
    destruct (turn_of tid e) eqn:Hturn.
    + destruct e as [? ? | tid' | tid' a]; simpl in Hturn; [discriminate | |];
        apply Nat.eqb_eq in Hturn; subst tid'; simpl in Hs; rewrite Ht in Hs;
        [| discriminate].
      inversion Hs; subst w1; clear Hs. right.
      destruct (advance_same w tid c _ Ht) as [Ht1 Hl1].
      exists (memory w).
      destruct (perform c (memory w)) as [[m1 acts1] st1] eqn:Hp.
      simpl in Ht1, Hl1.
      destruct st1 as [x | o1 k1]; simpl in Ht1.
      * destruct (finished_stays es _ w' tid Hr Ht1) as [Ht2 Hl2].
        exists [], m1, acts1, (Returned x).
        simpl. repeat split; [congruence | exact Ht2].
      * destruct (suspended_runs_solo es _ w' tid o1 k1 m1 Hr Ht1)
          as (env & m' & acts & st & Hsolo & Hl2 & Ht2).
        exists env, m', (acts1 ++ acts), st.
        rewrite <- (app_nil_r acts1) at 1. rewrite solo_prefix, Hsolo.
        repeat split; [| exact Ht2]. rewrite Hl2, Hl1, app_assoc. reflexivity.
    + destruct (step_other w e w1 tid _ Hs Hturn Ht) as [Ht1 Hl1].
      destruct (IH w1 w' tid c Hr Ht1)
        as [[Ht2 Hl2] | (m & env & m' & acts & st & Hsolo & Hl2 & Ht2)].
      * left. split; [exact Ht2 | congruence].
      * right. exists m, env, m', acts, st.
        repeat split; [exact Hsolo | congruence | exact Ht2].
Qed.

(** ** The invariant of quiet runs *)

Lemma hello_starts dev connected text t r :
  lower (strip text) = "hello." ->
  run boot (startup dev connected ++ heard text t r) = Some (running dev t r).
Proof.
  intros H. cbn. unfold advance. cbn. rewrite H. cbn. reflexivity.
Qed.

Lemma running_steady dev t r : steady 0 (running dev t r).
Proof.
  split; try reflexivity; [lia |].
  intros [| [| tid]] t0 Htid Ht; try lia. destruct tid; discriminate.
Qed.

Lemma steady_step n w e w' :
  steady n w -> quiet w e = true -> step w e = Some w' ->
  steady (if turn_of 1 e then S n else n) w'.
Proof.
  intros [Hn Hm H0 H1 Hr Hc] Hq Hs.
  destruct e as [obs msg | tid | tid a].
  - (* a message *)
    simpl in Hs. rewrite Hm in Hs. simpl in Hs.
    destruct obs as [| [| obs]]; simpl in Hs; [| | discriminate].
    + destruct msg; [discriminate |]. inversion Hs; subst w'.
      split; try assumption; reflexivity.
    + destruct msg as [distance | text]; [| discriminate].
      inversion Hs; subst w'; clear Hs. simpl in Hq. apply Z.leb_le in Hq.
      split; simpl; try assumption; try reflexivity.
      * rewrite lookup_app_l; [exact H0 | eapply lookup_lt_Some, H0].
      * rewrite lookup_app_l; [exact H1 | eapply lookup_lt_Some, H1].
      * intros tid t Htid Ht. apply lookup_app_Some in Ht as [Ht | [_ Ht]].
        -- eapply Hr; eassumption.
        -- apply list_lookup_singleton_Some in Ht as [_ <-]. right.
           exists distance. auto.
  - (* a task starts *)
    simpl in Hs. destruct (tasks w !! tid) as [[c | o k |] |] eqn:Ht;
      try discriminate.
    inversion Hs; subst w'; clear Hs.
    assert (Htid : (2 <= tid)%nat).
    { destruct tid as [| [| tid]]; [| | lia].
      - rewrite H0 in Ht. discriminate.
      - rewrite H1 in Ht. destruct n as [| [| [| [| [| [| [| [| [| [| [| n]]]]]]]]]]];
          try lia; discriminate. }
    destruct (Hr tid _ Htid Ht) as [| (distance & Hd & Hp)]; [discriminate |].
    injection Hp as ->. apply Z.ltb_ge in Hd.
    assert (Hp : perform (observe_infrared_distance_handler 1 distance) (memory w)
                 = (memory w, [Printed (Distance_is distance)], Returned tt)).
    { cbn. rewrite Hd. reflexivity. }
    replace (turn_of 1 (Start tid)) with false
      by (destruct tid as [| [| tid]]; [lia | lia | reflexivity]).
    split; try assumption.
    + unfold advance. rewrite Hp. exact Hm.
    + unfold advance. rewrite Hp. simpl.
      rewrite list_lookup_insert_ne by lia. exact H0.
    + unfold advance. rewrite Hp. simpl.
      rewrite list_lookup_insert_ne by lia. exact H1.
    + unfold advance. rewrite Hp. simpl. intros tid' t Htid' Ht'.
      destruct (decide (tid = tid')) as [<- | Hne].
      * rewrite list_lookup_insert_eq in Ht' by (eapply lookup_lt_Some, Ht).
        left. congruence.
      * rewrite list_lookup_insert_ne in Ht' by exact Hne.
        eapply Hr; eassumption.
    + rewrite history_advance, Hp, commands_app. simpl. rewrite app_nil_r.
      exact Hc.
  - (* an answer *)
    simpl in Hs, Hq.
    destruct tid as [| [| tid]].
    + rewrite H0 in Hs. unfold idle in Hs.
      destruct a; try discriminate. simpl in Hs.
      inversion Hs; subst w'; clear Hs.
      split; try assumption.
      * simpl. rewrite list_lookup_insert_eq by (eapply lookup_lt_Some, H0).
        reflexivity.
      * simpl. rewrite list_lookup_insert_ne by lia. exact H1.
      * simpl. intros tid t Htid Ht.
        rewrite list_lookup_insert_ne in Ht by lia. eapply Hr; eassumption.
      * rewrite history_advance, commands_app. simpl. rewrite app_nil_r. exact Hc.
    + rewrite H1 in Hs, Hq.
      assert (Hlt : (1 < length (tasks w))%nat) by (eapply lookup_lt_Some, H1).
      destruct n as [| [| [| [| [| [| [| [| [| [| [| n]]]]]]]]]]]; try lia;
        cbn in Hs, Hq; try discriminate;
        destruct a as [t r | | |]; try discriminate;
        try (destruct t; try discriminate; destruct r as [[|]]; try discriminate);
        cbn in Hs; unfold advance in Hs; rewrite Hm in Hs; cbn in Hs;
        inversion Hs; subst w'; clear Hs;
        (split; simpl;
         [ lia
         | reflexivity
         | rewrite list_lookup_insert_ne by lia; exact H0
         | rewrite list_lookup_insert_eq by exact Hlt; reflexivity
         | intros tid t' Htid Ht; rewrite list_lookup_insert_ne in Ht by lia;
           eapply Hr; eassumption
         | unfold history; simpl; rewrite map_app; fold (history w);
           rewrite commands_app, Hc; reflexivity ]).
    + destruct (tasks w !! S (S tid)) as [t |] eqn:Ht; [| discriminate].
      destruct (Hr (S (S tid)) t ltac:(lia) Ht) as [-> | (d & _ & ->)]; discriminate.
Qed.

Lemma steady_run es : forall n w w',
  steady n w -> all_quiet w es = true -> run w es = Some w' ->
  steady (n + answered es) w'.
Proof.
  induction es as [| e es IH]; intros n w w' Hst Hq Hr; simpl in *.
  - inversion Hr; subst. rewrite Nat.add_0_r. exact Hst.
  - destruct (step w e) as [w1 |] eqn:Hs; [| discriminate].
    apply andb_true_iff in Hq as [Hq1 Hq2].
    pose proof (steady_step n w e w1 Hst Hq1 Hs) as Hst1.
    pose proof (IH _ _ _ Hst1 Hq2 Hr) as Hst'.
    unfold answered in *. simpl.
    destruct (turn_of 1 e); simpl; [| exact Hst'].
    replace (n + S (length (List.filter (turn_of 1) es)))%nat
      with (S n + length (List.filter (turn_of 1) es))%nat by lia.
    exact Hst'.
Qed.


(** In a quiet run the sequence is never stuck: the call task 1 awaits
    can be answered, by a success. *)
Lemma sequence_never_stuck n w :
  steady n w -> (n < 10)%nat ->
  exists a w',
    nth_error script n = Some a
    /\ quiet w (Resume 1%nat a) = true
    /\ step w (Resume 1%nat a) = Some w'.
Proof.
  intros [Hn Hm H0 H1 Hr Hc] Hlt.
  destruct n as [| [| [| [| [| [| [| [| [| [| n]]]]]]]]]]; try lia;
    eexists _, _; (split; [reflexivity |]); simpl; rewrite H1; cbn;
    split; reflexivity.
Qed.

(** Once the sequence runs the program listens no more: an utterance,
    ["finish."] or another, changes nothing. *)
Lemma unheard_while_running n w text :
  steady n w ->
  step w (Deliver 0%nat (SpeechRecogniseResponse text)) = Some w.
Proof.
  intros [Hn Hm H0 H1 Hr Hc]. simpl. rewrite Hm. reflexivity.
Qed.

(** ** The invariant of runs with one start *)

Lemma milestones_app l1 l2 :
  milestones (l1 ++ l2) = milestones l1 ++ milestones l2.
Proof.
  unfold milestones, calls. rewrite omap_app, List.filter_app. reflexivity.
Qed.

Lemma shape_stop n l :
  shape n l -> shape n (alter (with_started false) 0%nat l).
Proof.
  unfold shape. destruct (n <=? 1)%nat.
  - intros [b ->]. exists false. reflexivity.
  - intros ->. reflexivity.
Qed.

Lemma parting_done n : parting (S (S (S n))) = Finished.
Proof. unfold parting. destruct n; reflexivity. Qed.

(** A turn of a bystander: it may stop the speech observer, it remains a
    bystander, and it issues no step and no announcement of the end. *)
Lemma bystander_turn w tid t e w' :
  tasks w !! tid = Some t -> bystander t ->
  turn_of tid e = true ->
  step w e = Some w' ->
  STOP_MOVE_SEQUENCE (memory w') = STOP_MOVE_SEQUENCE (memory w)
  /\ (observers (memory w') = observers (memory w)
      \/ observers (memory w')
         = alter (with_started false) 0%nat (observers (memory w)))
  /\ (exists t', bystander t' /\ tasks w' = <[tid := t']> (tasks w))
  /\ milestones (history w') = milestones (history w).
Proof.
  intros Ht Hb Hturn Hs.
  destruct e as [obs msg | tid' | tid' a]; simpl in Hturn; [discriminate | |];
    apply Nat.eqb_eq in Hturn; subst tid'; simpl in Hs; rewrite Ht in Hs.
  - (* started *)
    destruct Hb as [| | text Hne | n | distance Hd]; try discriminate.
    + apply String.eqb_neq in Hne.
      destruct (String.eqb (lower (strip text)) "finish.") eqn:Hf;
        inversion Hs; subst w'; clear Hs;
        rewrite history_advance, milestones_app;
        unfold advance, observe_speech_handler; cbn; rewrite Hne, Hf; cbn;
        (repeat split; [auto | | apply app_nil_r]).
      * exists (parting 0). split; [constructor | reflexivity].
      * exists Finished. split; [constructor | reflexivity].
    + destruct n as [| [| [| n]]]; try rewrite parting_done in Hs; discriminate.
    + apply Z.ltb_ge in Hd. inversion Hs; subst w'; clear Hs.
      rewrite history_advance, milestones_app.
      unfold advance, observe_infrared_distance_handler. cbn. rewrite Hd. cbn.
      repeat split; [auto | | apply app_nil_r].
      exists Finished. split; [constructor | reflexivity].
  - (* resumed *)
    remember (advance w tid) as adv eqn:Hadv.
    destruct Hb as [| | text Hne | n | distance Hd]; try discriminate.
    + unfold idle in Hs. destruct a; try discriminate. cbn in Hs.
      inversion Hs; subst w' adv; clear Hs.
      rewrite history_advance, milestones_app. cbn.
      repeat split; [auto | | apply app_nil_r].
      exists idle. split; [constructor | reflexivity].
    + destruct n as [| [| [| n]]]; try rewrite parting_done in Hs;
        cbn in Hs; try discriminate;
        destruct a; try discriminate; cbn in Hs;
        inversion Hs; subst w' adv; clear Hs;
        rewrite history_advance, milestones_app; cbn;
        (repeat split; [auto | | apply app_nil_r]).
      * exists (parting 1). split; [constructor | reflexivity].
      * exists (parting 2). split; [constructor | reflexivity].
      * exists (parting 3). split; [constructor | reflexivity].
Qed.

Lemma insert_bystanders (P : nat -> Prop) (l : list task) tid t' :
  bystander t' ->
  (forall tid' t, P tid' -> l !! tid' = Some t -> bystander t) ->
  forall tid' t, P tid' -> <[tid := t']> l !! tid' = Some t -> bystander t.
Proof.
  intros Hb Hl tid' t HP Ht.
  apply list_lookup_insert_Some in Ht as [(_ & <- & _) | [_ Ht]];
    [exact Hb | eapply Hl; eassumption].
Qed.

Lemma waiting_step w e w' :
  waiting w -> permitted not_hello e -> step w e = Some w' -> waiting w'.
Proof.
  intros [Hf Ho Ht Hm] Hp Hs.
  destruct e as [obs msg | tid | tid a].
  - destruct Ho as [b Ho]. simpl in Hs. rewrite Ho in Hs.
    destruct obs as [| obs]; [| discriminate]. simpl in Hs.
    destruct msg as [distance | text]; [discriminate |].
    destruct b; inversion Hs; subst w'; clear Hs;
      [| split; try assumption; exists false; exact Ho].
    split; simpl; try assumption; [exists true; exact Ho |].
    intros tid t Hl. apply lookup_app_Some in Hl as [Hl | [_ Hl]].
    + eapply Ht, Hl.
    + apply list_lookup_singleton_Some in Hl as [_ <-].
      constructor. exact Hp.
  - destruct (tasks w !! tid) as [t |] eqn:Htid;
      [| simpl in Hs; rewrite Htid in Hs; discriminate].
    destruct (bystander_turn w tid t (Start tid) w' Htid (Ht _ _ Htid))
      as (Hf' & Ho' & (t' & Hb' & Ht') & Hm'); [apply Nat.eqb_refl | exact Hs |].
    split.
    + congruence.
    + destruct Ho' as [-> | ->]; [exact Ho | apply shape_stop, Ho].
    + rewrite Ht'. intros tid' t0 Hl.
      eapply (insert_bystanders (fun _ => True));
        [exact Hb' | intros ? ? _; apply Ht | exact I | exact Hl].
    + congruence.
  - destruct (tasks w !! tid) as [t |] eqn:Htid;
      [| simpl in Hs; rewrite Htid in Hs; discriminate].
    destruct (bystander_turn w tid t (Resume tid a) w' Htid (Ht _ _ Htid))
      as (Hf' & Ho' & (t' & Hb' & Ht') & Hm'); [apply Nat.eqb_refl | exact Hs |].
    split.
    + congruence.
    + destruct Ho' as [-> | ->]; [exact Ho | apply shape_stop, Ho].
    + rewrite Ht'. intros tid' t0 Hl.
      eapply (insert_bystanders (fun _ => True));
        [exact Hb' | intros ? ? _; apply Ht | exact I | exact Hl].
    + congruence.
Qed.

Lemma started_as_exists h n l : started_as h n l -> (h < length l)%nat.
Proof.
  destruct n; simpl; [intros (text & _ & H) | intros H];
    eapply lookup_lt_Some, H.
Qed.

Lemma started_as_same h n l l' :
  l' !! h = l !! h -> started_as h n l -> started_as h n l'.
Proof. destruct n; simpl; intros ->; auto. Qed.

Lemma underway_step h n w e w' :
  underway h n w -> quiet w e = true -> permitted not_hello e ->
  step w e = Some w' ->
  underway h (if turn_of h e then S n else n) w'.
Proof.
  intros [Hn Hf Ho Ht Hothers Hm] Hq Hp Hs.
  pose proof (started_as_exists _ _ _ Ht) as Hlt.
  destruct (turn_of h e) eqn:Hturn.
  - (* a turn of the handler of "hello." *)
    destruct e as [obs msg | tid | tid a]; simpl in Hturn; [discriminate | |];
      apply Nat.eqb_eq in Hturn; subst tid; simpl in Hs, Hq.
    + (* it starts *)
      destruct n as [| n]; simpl in Ht.
      * destruct Ht as (text & Hhello & Ht). rewrite Ht in Hs.
        inversion Hs; subst w'; clear Hs.
        assert (Hp' : perform (observe_speech_handler 0 text) (memory w)
                      = (memory w,
                         [Printed (Raw_Speech_Recognition_Output "hello.");
                          Printed Recognized_please_clean;
                          Call (StartPlayTTS "Starting cleaning process")],
                         snd (perform (observe_speech_handler 0 "hello.")
                                {| STOP_MOVE_SEQUENCE := false;
                                   observers := [] |}))).
        { unfold observe_speech_handler. rewrite Hhello. reflexivity. }
        split.
        -- lia.
        -- unfold advance. rewrite Hp'. exact Hf.
        -- unfold advance. rewrite Hp'. exact Ho.
        -- unfold advance. rewrite Hp'. simpl.
           rewrite list_lookup_insert_eq by exact Hlt. reflexivity.
        -- unfold advance. rewrite Hp'. simpl. intros tid t Hne Hl.
           rewrite list_lookup_insert_ne in Hl by auto. eapply Hothers; eauto.
        -- rewrite history_advance, Hp', milestones_app, Hm. reflexivity.
      * rewrite Ht in Hs.
        do 12 (destruct n as [| n]; [discriminate Hs |]). lia.
    + (* it is resumed *)
      destruct n as [| n]; simpl in Ht;
        [destruct Ht as (text & _ & Ht); rewrite Ht in Hs; discriminate |].
      rewrite Ht in Hs, Hq. unfold shape in Ho.
      destruct w as [[flag obs] tks lg]. simpl in Hf, Ho, Ht, Hm, Hlt, Hothers.
      subst flag.
      assert (Ho' : match n with
                    | 0%nat => exists b, obs = [speech_observer b]
                    | _ => obs = listening_stopped
                    end) by (destruct n; exact Ho).
      clear Ho.
      destruct n as [| [| [| [| [| [| [| [| [| [| [| [| n]]]]]]]]]]]]; try lia;
        [destruct Ho' as [b ->] | subst obs ..];
        cbn in Hs, Hq; try discriminate;
        destruct a as [t r | | |]; try discriminate;
        try (destruct t; try discriminate; destruct r as [[|]]; try discriminate);
        cbn in Hs; unfold advance in Hs; cbn in Hs;
        inversion Hs; subst w'; clear Hs;
        (split; simpl;
         [ lia
         | reflexivity
         | reflexivity
         | rewrite list_lookup_insert_eq by exact Hlt; reflexivity
         | intros tid t' Hne Hl; rewrite list_lookup_insert_ne in Hl by auto;
           eapply Hothers; eassumption
         | unfold history in *; simpl in *; rewrite map_app, milestones_app, Hm;
           reflexivity ]).
  - (* a turn of another task, or a message *)
    destruct e as [obs msg | tid | tid a].
    + simpl in Hs, Hq, Hp. unfold shape in Ho.
      destruct (n <=? 1)%nat eqn:Hle.
      * destruct Ho as [b Ho]. rewrite Ho in Hs.
        destruct obs as [| obs]; [| discriminate]. simpl in Hs.
        destruct msg as [distance | text]; [discriminate |].
        destruct b; inversion Hs; subst w'; clear Hs;
          [| split; try assumption; unfold shape; rewrite Hle; exists false;
             exact Ho].
        split; simpl; try assumption.
        -- unfold shape. rewrite Hle. exists true. exact Ho.
        -- eapply started_as_same; [| exact Ht]. apply lookup_app_l. exact Hlt.
        -- intros tid t Hne Hl. apply lookup_app_Some in Hl as [Hl | [_ Hl]].
           ++ eapply Hothers; eassumption.
           ++ apply list_lookup_singleton_Some in Hl as [_ <-].
              constructor. exact Hp.
      * rewrite Ho in Hs.
        destruct obs as [| [| obs]]; simpl in Hs; [| | discriminate].
        -- destruct msg; [discriminate |]. inversion Hs; subst w'.
           split; try assumption. unfold shape. rewrite Hle. exact Ho.
        -- destruct msg as [distance | text]; [| discriminate].
           inversion Hs; subst w'; clear Hs. apply Z.leb_le in Hq.
           split; simpl; try assumption.
           ++ unfold shape. rewrite Hle. exact Ho.
           ++ eapply started_as_same; [| exact Ht]. apply lookup_app_l. exact Hlt.
           ++ intros tid t Hne Hl. apply lookup_app_Some in Hl as [Hl | [_ Hl]].
              ** eapply Hothers; eassumption.
              ** apply list_lookup_singleton_Some in Hl as [_ <-].
                 constructor. exact Hq.
    + simpl in Hturn. apply Nat.eqb_neq in Hturn.
      destruct (tasks w !! tid) as [t |] eqn:Htid;
        [| simpl in Hs; rewrite Htid in Hs; discriminate].
      destruct (bystander_turn w tid t (Start tid) w' Htid
                  (Hothers _ _ Hturn Htid))
        as (Hf' & Ho' & (t' & Hb' & Ht') & Hm'); [apply Nat.eqb_refl | exact Hs |].
      split.
      * exact Hn.
      * congruence.
      * destruct Ho' as [-> | ->]; [exact Ho | apply shape_stop, Ho].
      * eapply started_as_same; [| exact Ht]. rewrite Ht'.
        apply list_lookup_insert_ne. exact Hturn.
      * rewrite Ht'. intros tid' t0 Hne Hl.
        eapply (insert_bystanders (fun i => i <> h));
          [exact Hb' | exact Hothers | exact Hne | exact Hl].
      * congruence.
    + simpl in Hturn. apply Nat.eqb_neq in Hturn.
      destruct (tasks w !! tid) as [t |] eqn:Htid;
        [| simpl in Hs; rewrite Htid in Hs; discriminate].
      destruct (bystander_turn w tid t (Resume tid a) w' Htid
                  (Hothers _ _ Hturn Htid))
        as (Hf' & Ho' & (t' & Hb' & Ht') & Hm'); [apply Nat.eqb_refl | exact Hs |].
      split.
      * exact Hn.
      * congruence.
      * destruct Ho' as [-> | ->]; [exact Ho | apply shape_stop, Ho].
      * eapply started_as_same; [| exact Ht]. rewrite Ht'.
        apply list_lookup_insert_ne. exact Hturn.
      * rewrite Ht'. intros tid' t0 Hne Hl.
        eapply (insert_bystanders (fun i => i <> h));
          [exact Hb' | exact Hothers | exact Hne | exact Hl].
      * congruence.
Qed.

Lemma underway_run es : forall h n w w',
  underway h n w -> all_quiet w es = true ->
  Forall (permitted not_hello) es -> run w es = Some w' ->
  underway h (n + turns h es) w'.
Proof.
  induction es as [| e es IH]; intros h n w w' Hu Hq Hp Hr; simpl in *.
  - inversion Hr; subst. rewrite Nat.add_0_r. exact Hu.
  - destruct (step w e) as [w1 |] eqn:Hs; [| discriminate].
    apply andb_true_iff in Hq as [Hq1 Hq2].
    apply Forall_cons_1 in Hp as [Hp1 Hp2].
    pose proof (underway_step h n w e w1 Hu Hq1 Hp1 Hs) as Hu1.
    pose proof (IH _ _ _ _ Hu1 Hq2 Hp2 Hr) as Hu'.
    unfold turns in *. simpl.
    destruct (turn_of h e); simpl; [| exact Hu'].
    rewrite Nat.add_succ_r. exact Hu'.
Qed.

Lemma waiting_run es : forall w w',
  waiting w -> Forall (permitted not_hello) es -> run w es = Some w' ->
  waiting w'.
Proof.
  induction es as [| e es IH]; intros w w' Hw Hp Hr; simpl in Hr.
  - inversion Hr; subst. exact Hw.
  - destruct (step w e) as [w1 |] eqn:Hs; [| discriminate].
    apply Forall_cons_1 in Hp as [Hp1 Hp2].
    eapply IH; [eapply waiting_step; eassumption | exact Hp2 | exact Hr].
Qed.

(** Once the speech observer has been stopped with no ["hello."] heard,
    no task is created any more. *)
Lemma deaf_run es : forall w w',
  waiting w -> observers (memory w) = [speech_observer false] ->
  run w es = Some w' ->
  turns (length (tasks w)) es = 0%nat /\ milestones (history w') = [].
Proof.
  induction es as [| e es IH]; intros w w' Hw Ho Hr; simpl in Hr.
  - inversion Hr; subst. split; [reflexivity | apply Hw].
  - destruct (step w e) as [w1 |] eqn:Hs; [| discriminate].
    assert (H1 : waiting w1
                 /\ observers (memory w1) = [speech_observer false]
                 /\ length (tasks w1) = length (tasks w)
                 /\ turn_of (length (tasks w)) e = false).
    { destruct e as [obs msg | tid | tid a].
      - simpl in Hs. rewrite Ho in Hs.
        destruct obs as [| obs]; [| discriminate]. simpl in Hs.
        destruct msg; [discriminate |]. inversion Hs; subst w1. auto.
      - destruct (tasks w !! tid) as [t |] eqn:Htid;
          [| simpl in Hs; rewrite Htid in Hs; discriminate].
        destruct (bystander_turn w tid t (Start tid) w1 Htid
                    (waiting_tasks _ Hw _ _ Htid))
          as (_ & Ho' & (t' & _ & Ht') & _); [apply Nat.eqb_refl | exact Hs |].
        split; [| split; [| split]].
        + eapply waiting_step; [exact Hw | | exact Hs]. exact I.
        + destruct Ho' as [-> | ->]; rewrite Ho; reflexivity.
        + rewrite Ht'. apply length_insert.
        + simpl. apply Nat.eqb_neq. apply lookup_lt_Some in Htid. lia.
      - destruct (tasks w !! tid) as [t |] eqn:Htid;
          [| simpl in Hs; rewrite Htid in Hs; discriminate].
        destruct (bystander_turn w tid t (Resume tid a) w1 Htid
                    (waiting_tasks _ Hw _ _ Htid))
          as (_ & Ho' & (t' & _ & Ht') & _); [apply Nat.eqb_refl | exact Hs |].
        split; [| split; [| split]].
        + eapply waiting_step; [exact Hw | | exact Hs]. exact I.
        + destruct Ho' as [-> | ->]; rewrite Ho; reflexivity.
        + rewrite Ht'. apply length_insert.
        + simpl. apply Nat.eqb_neq. apply lookup_lt_Some in Htid. lia. }
    destruct H1 as (Hw1 & Ho1 & Hl1 & Hturn).
    destruct (IH w1 w' Hw1 Ho1 Hr) as [Ht Hm].
    split; [| exact Hm]. unfold turns in *. simpl. rewrite Hturn.
    rewrite <- Hl1. exact Ht.
Qed.

Lemma all_quiet_app es1 : forall w w1 es2,
  all_quiet w (es1 ++ es2) = true -> run w es1 = Some w1 ->
  all_quiet w1 es2 = true.
Proof.
  induction es1 as [| e es1 IH]; intros w w1 es2 Hq Hr; simpl in *.
  - inversion Hr; subst. exact Hq.
  - destruct (step w e) as [w' |]; [| discriminate].
    apply andb_true_iff in Hq as [_ Hq]. eapply IH; eassumption.
Qed.

Lemma listening_waiting dev : waiting (listening dev).
Proof.
  split; try reflexivity.
  - exists true. reflexivity.
  - intros [| tid] t Ht; [| discriminate].
    injection Ht as <-. constructor.
Qed.

(** In a quiet run the handler of ["hello."] is never stuck: it can be
    started, and the call it awaits can be answered by a success. *)
Lemma start_never_stuck h n w :
  underway h n w -> (n < 12)%nat ->
  exists e w',
    turn_of h e = true /\ quiet w e = true /\ step w e = Some w'.
Proof.
  intros [Hn Hf Ho Ht Hothers Hm] Hlt.
  destruct n as [| n]; simpl in Ht.
  - destruct Ht as (text & _ & Ht). exists (Start h). eexists.
    simpl. rewrite Ht, Nat.eqb_refl. auto.
  - do 11 (destruct n as [| n];
           [first [exists (Resume h ok); eexists;
                   simpl; rewrite Ht, Nat.eqb_refl; cbn;
                   repeat split; reflexivity
                  |exists (Resume h Done); eexists;
                   simpl; rewrite Ht, Nat.eqb_refl; cbn;
                   repeat split; reflexivity] |]).
    lia.
Qed.

(** ** The movement sequence *)

(** C1 (the code does otherwise): an obstacle met while step 2
    ([Backward 4]) is in flight does not keep step 3 from being issued.
    Line 50 of the source tests only the result of [move_robot], without
    the [and not STOP_MOVE_SEQUENCE] of lines 49, 51 and 52.  In the run
    below the reading 120 is handled as task 4 while [Backward 4] awaits
    its answer; when that answer and the settle delay have come, task 1
    issues [Rightward 6] with the flag still set. *)
Theorem step_3_issued_despite_interrupt :
  exists w,
    run boot obstacle_during_step_2 = Some w
    /\ STOP_MOVE_SEQUENCE (memory w) = true
    /\ moves (own 1 (log w))
       = [MoveRobot FORWARD 9; MoveRobot BACKWARD 4; MoveRobot RIGHTWARD 6]
    /\ own 4 (log w) = trip 1 120
    /\ last (history w) = Some (Call (MoveRobot RIGHTWARD 6)).
Proof. eexists. split; [vm_compute; reflexivity |]. vm_compute. auto. Qed.

(** Whatever the other tasks do to the shared memory while [Backward 4]
    is in flight and settles, [Rightward 6] comes next. *)
Lemma step_3_not_guarded (m : shared) (f1 f2 f3 f4 : shared -> shared) :
  calm f1 -> calm f2 ->
  exists k,
    solo (perform move_sequence m) [(ok, f1); (Done, f2); (ok, f3); (Done, f4)]
    = (f4 (f3 (f2 (f1 (set_STOP_MOVE_SEQUENCE false m)))),
       Store false :: worked (MoveRobot FORWARD 9)
         ++ worked (MoveRobot BACKWARD 4) ++ [Call (MoveRobot RIGHTWARD 6)],
       Blocked (MoveRobot RIGHTWARD 6) k).
Proof.
  intros H1 H2. begin. do 4 resume. eexists. reflexivity.
Qed.

(** The other three tests do read the flag: set while [Forward 9] is in
    flight, it ends the sequence before [Backward 4]. *)
Lemma step_2_guarded (m : shared) (f1 f2 : shared -> shared) :
  STOP_MOVE_SEQUENCE (f2 (f1 (set_STOP_MOVE_SEQUENCE false m))) = true ->
  solo (perform move_sequence m) [(ok, f1); (Done, f2)]
  = (f2 (f1 (set_STOP_MOVE_SEQUENCE false m)),
     Store false :: worked (MoveRobot FORWARD 9), Returned tt).
Proof.
  intros H. begin. resume. resume_with H. reflexivity.
Qed.

(** C9: every invocation of [move_sequence] first stores [False] in
    [STOP_MOVE_SEQUENCE] and then issues [Forward 9], whatever the flag
    was when it was invoked: from any shared memory, the first stretch of
    the coroutine is that store followed by that command, on which it
    suspends with the flag cleared. *)
Theorem move_sequence_resets_flag (m : shared) :
  exists k,
    perform move_sequence m =
      (set_STOP_MOVE_SEQUENCE false m,
       [Store false; Call (MoveRobot FORWARD 9)],
       Blocked (MoveRobot FORWARD 9) k)
    /\ STOP_MOVE_SEQUENCE (fst (fst (perform move_sequence m))) = false.
Proof. eexists. split; reflexivity. Qed.

(** With all the answers of a run whose steps work, and no other task
    setting the flag, [move_sequence] issues the four steps in order,
    announces the end and returns. *)
Lemma sequence_completes (m : shared) (t : MiniApiResultType) (r : response)
    (env : list (answer * (shared -> shared))) :
  map fst env = answers 4 (Result t r) ->
  Forall calm (map snd env) ->
  exists m',
    solo (perform move_sequence m) env
    = (m',
       Store false :: concat (map worked plan)
         ++ [Call announcement; Printed (TTS_Response t r)],
       Returned tt)
    /\ STOP_MOVE_SEQUENCE m' = false.
Proof.
  intros Ha Hc.
  do 9 (destruct env as [| [? ?] env]; [discriminate Ha |]).
  destruct env; [| discriminate Ha].
  simpl in Ha. injection Ha as -> -> -> -> -> -> -> -> ->.
  simpl in Hc. calm_hyps.
  begin. do 9 resume. eexists. split; [reflexivity |]. still_clear.
Qed.

(** When ["hello."] is the first utterance and nothing else is delivered
    before its announcement is answered, the world is [running].  From
    there, along any quiet schedule of events (readings, wake-ups of
    [main], answers), the commands sent so far, the announcement of the
    start included, are a prefix of [full] whose length is given by the
    number of answers task 1 has had; it never gets more than ten, and
    with ten the task is finished and the commands are exactly [full]. *)
Theorem no_obstacle_completion (dev : WiFiDevice) (connected : bool)
    (text : string) (t : MiniApiResultType) (r : response)
    (es : list event) (w : world) :
  lower (strip text) = "hello." ->
  all_quiet (running dev t r) es = true ->
  run (running dev t r) es = Some w ->
  run boot (startup dev connected ++ heard text t r ++ es) = Some w
  /\ commands (history w) = firstn (1 + (answered es + 1) / 2) full
  /\ (answered es <= 10)%nat
  /\ (answered es = 10%nat ->
      tasks w !! 1%nat = Some Finished /\ commands (history w) = full).
Proof.
  intros Hhello Hq Hr.
  pose proof (steady_run es 0 _ _ (running_steady dev t r) Hq Hr) as Hst.
  simpl in Hst. destruct Hst as [Hn Hm H0 H1 Hrd Hc]. repeat split.
  - rewrite app_assoc, run_app.
    rewrite (hello_starts dev connected text t r Hhello). exact Hr.
  - exact Hc.
  - exact Hn.
  - rewrite H1, H. reflexivity.
  - rewrite Hc, H. reflexivity.
Qed.

Lemma no_obstacle_completion_witness :
  exists w,
    run boot (startup alphamini false ++ heard " Hello. " Unsupported
                {| isSuccess := false |} ++ smooth) = Some w
    /\ tasks w !! 1%nat = Some Finished
    /\ commands (history w) = full.
Proof.
  destruct (run (running alphamini Unsupported {| isSuccess := false |}) smooth)
    as [w |] eqn:Hr; [| vm_compute in Hr; discriminate Hr].
  exists w.
  destruct (no_obstacle_completion alphamini false " Hello. " Unsupported
              {| isSuccess := false |} smooth w eq_refl eq_refl Hr)
    as (Hb & _ & _ & Hend).
  destruct (Hend eq_refl) as [Hfin Hfull].
  repeat split; assumption.
Defined.

(** C5 (counterexample): without obstacle and without failure a step
    can still be issued twice.  The handler of ["hello."] stops the
    speech observer only after the announcement of the start has been
    answered (lines 98 and 99).  A second ["hello."] recognised while the
    announcement plays gets a handler of its own, and each of the two
    handlers runs [move_sequence]: every movement command succeeds, no
    reading comes in, and every step of the plan and the final
    announcement are issued twice. *)
Lemma second_start_while_announcing :
  exists w,
    run boot double_hello = Some w
    /\ all_quiet boot double_hello = true
    /\ tasks w !! 1%nat = Some Finished
    /\ tasks w !! 2%nat = Some Finished
    /\ milestones (history w)
       = [MoveRobot FORWARD 9; MoveRobot FORWARD 9;
          MoveRobot BACKWARD 4; MoveRobot BACKWARD 4;
          MoveRobot RIGHTWARD 6; MoveRobot RIGHTWARD 6;
          MoveRobot FORWARD 5; MoveRobot FORWARD 5;
          announcement; announcement].
Proof. eexists. split; [vm_compute; reflexivity |]. vm_compute. auto. Qed.

(** C5 (amended): in a run in which one utterance is ["hello."] (blanks
    and case apart) and no other one is, every movement command succeeds
    and every reading is at least 150, the steps of the plan are issued
    once each, in order, and then the end is announced once.  The run
    starts with [startup], as every run that finds a device does; the
    events [before] and [after] the utterance are arbitrary: other
    utterances, ["finish."] included, readings, wake-ups of [main],
    answers in any order.  The handler of ["hello."] is the task created
    by its delivery; the steps and the final announcement issued so far,
    by any task, are the first ones of the plan, as many as the turns of
    that handler allow.  It never gets more than twelve turns, and with
    twelve it is finished and exactly the plan and one final announcement
    have been issued.  (When ["finish."] has stopped the speech observer
    before ["hello."] is delivered, the utterance is dropped and nothing
    is issued.) *)
Theorem single_start_completion (dev : WiFiDevice) (connected : bool)
    (before after : list event) (text : string) (w1 w : world) :
  lower (strip text) = "hello." ->
  Forall (permitted not_hello) (before ++ after) ->
  all_quiet boot
    (startup dev connected ++ before
     ++ Deliver 0%nat (SpeechRecogniseResponse text) :: after) = true ->
  run boot (startup dev connected ++ before) = Some w1 ->
  run w1 (Deliver 0%nat (SpeechRecogniseResponse text) :: after) = Some w ->
  run boot
    (startup dev connected ++ before
     ++ Deliver 0%nat (SpeechRecogniseResponse text) :: after) = Some w
  /\ milestones (history w)
     = firstn ((turns (length (tasks w1)) after - 1) / 2)
         (plan ++ [announcement])
  /\ (turns (length (tasks w1)) after <= 12)%nat
  /\ (turns (length (tasks w1)) after = 12%nat ->
      tasks w !! length (tasks w1) = Some Finished
      /\ milestones (history w) = plan ++ [announcement]).
Proof.
  intros Hhello Hp Hq Hr1 Hr2.
  apply Forall_app in Hp as [Hp1 Hp2].
  rewrite app_assoc in Hq |- *.
  pose proof (all_quiet_app _ _ _ _ Hq Hr1) as Hq2.
  split; [rewrite run_app, Hr1; exact Hr2 |].
  assert (Hw1 : waiting w1).
  { rewrite run_app in Hr1.
    change (run boot (startup dev connected)) with (Some (listening dev)) in Hr1.
    eapply waiting_run; [apply listening_waiting | exact Hp1 | exact Hr1]. }
  cbn [run all_quiet] in Hr2, Hq2.
  destruct (step w1 (Deliver 0%nat (SpeechRecogniseResponse text)))
    as [w2 |] eqn:Hs; [| discriminate].
  apply andb_true_iff in Hq2 as [_ Hq2].
  destruct Hw1 as [Hf [b Ho] Ht Hm]. simpl in Hs. rewrite Ho in Hs. simpl in Hs.
  destruct b; inversion Hs; subst w2; clear Hs.
  - (* the utterance is handled *)
    set (h := length (tasks w1)) in *.
    assert (Hu : underway h 0
                   {| memory := memory w1;
                      tasks := tasks w1
                               ++ [Pending (observe_speech_handler 0 text)];
                      log := log w1 |}).
    { split; simpl; try assumption.
      - lia.
      - exists true. exact Ho.
      - exists text. split; [exact Hhello |]. apply list_lookup_middle.
        reflexivity.
      - intros tid t Hne Hl. apply lookup_app_Some in Hl as [Hl | [Hge Hl]].
        + eapply Ht, Hl.
        + apply list_lookup_singleton_Some in Hl as [Hl _]. unfold h in Hne. lia. }
    pose proof (underway_run _ _ _ _ _ Hu Hq2 Hp2 Hr2) as Hu'.
    simpl in Hu'. destruct Hu' as [Hn' Hf' Ho' Ht' Hothers' Hm'].
    split; [exact Hm' | split; [exact Hn' | intros E; split]].
    + rewrite E in Ht'. exact Ht'.
    + rewrite Hm', E. reflexivity.
  - (* the speech observer had been stopped: the utterance is dropped *)
    assert (Hw1 : waiting w1) by (split; [| exists false | |]; assumption).
    destruct (deaf_run _ _ _ Hw1 Ho Hr2) as [-> Hm'].
    split; [exact Hm' | split; [lia | discriminate]].
Qed.

Lemma single_start_completion_witness :
  exists w,
    run boot
      (startup alphamini false ++ small_talk
       ++ Deliver 0%nat (SpeechRecogniseResponse " Hello. ") :: busy_run)
    = Some w
    /\ tasks w !! 2%nat = Some Finished
    /\ milestones (history w) = plan ++ [announcement].
Proof.
  destruct (run boot (startup alphamini false ++ small_talk))
    as [w1 |] eqn:Hr1; [| vm_compute in Hr1; discriminate Hr1].
  destruct (run w1 (Deliver 0%nat (SpeechRecogniseResponse " Hello. ")
                      :: busy_run))
    as [w |] eqn:Hr2;
    [| vm_compute in Hr1; injection Hr1 as <-; vm_compute in Hr2;
       discriminate Hr2].
  exists w.
  destruct (single_start_completion alphamini false small_talk busy_run
              " Hello. " w1 w eq_refl)
    as (Hb & _ & _ & Hend); [| reflexivity | exact Hr1 | exact Hr2 |].
  - repeat constructor; simpl; discriminate.
  - vm_compute in Hr1. injection Hr1 as <-.
    destruct (Hend eq_refl) as [Hfin Hfull].
    repeat split; assumption.
Defined.

(** C3 (counterexample): a failed step is not reported.  When
    [Backward 4] is answered by a timeout, task 1 writes the one log line
    that every answer to a move gets and is finished: nothing is sent,
    the shared memory is as before, no other task is told. *)
Lemma failure_is_silent :
  exists w w',
    run boot step_1_in_flight = Some w
    /\ step w (Resume 1%nat (Result Timeout {| isSuccess := false |})) = Some w'
    /\ log w' = log w ++ [(1%nat, Printed (Move_result {| isSuccess := false |}))]
    /\ memory w' = memory w
    /\ tasks w' = <[1%nat := Finished]> (tasks w).
Proof. eexists _, _. split; [vm_compute; reflexivity |]. vm_compute. auto. Qed.

(** C3 (amended): when the call for step [i] is answered by a failure,
    after [i] steps that worked and with no other task setting the flag,
    [move_sequence] logs the answer and returns: the steps after [i] and
    the final announcement are not issued, and nothing else is done. *)
Theorem move_failure_ends_sequence (i : nat) (t : MiniApiResultType)
    (r : response) (m : shared) (env : list (answer * (shared -> shared))) :
  (i < 4)%nat ->
  is_Success t && isSuccess r = false ->
  map fst env = answers i (Result t r) ->
  Forall calm (map snd env) ->
  exists m',
    solo (perform move_sequence m) env = (m', until_failure i r, Returned tt).
Proof.
  intros Hi Hfail Ha Hc.
  destruct i as [| [| [| [| i]]]]; [| | | | lia]; clear Hi;
    unfold answers in Ha; simpl in Ha.
  - do 1 (destruct env as [| [? ?] env]; [discriminate Ha |]).
    destruct env; [| discriminate Ha]. simpl in Ha. injection Ha as ->.
    begin. resume_with Hfail. eexists. reflexivity.
  - do 3 (destruct env as [| [? ?] env]; [discriminate Ha |]).
    destruct env; [| discriminate Ha]. simpl in Ha. injection Ha as -> -> ->.
    simpl in Hc. calm_hyps.
    begin. do 2 resume. resume_with Hfail. eexists. reflexivity.
  - do 5 (destruct env as [| [? ?] env]; [discriminate Ha |]).
    destruct env; [| discriminate Ha]. simpl in Ha.
    injection Ha as -> -> -> -> ->.
    simpl in Hc. calm_hyps.
    begin. do 4 resume. resume_with Hfail. eexists. reflexivity.
  - do 7 (destruct env as [| [? ?] env]; [discriminate Ha |]).
    destruct env; [| discriminate Ha]. simpl in Ha.
    injection Ha as -> -> -> -> -> -> ->.
    simpl in Hc. calm_hyps.
    begin. do 6 resume. resume_with Hfail. eexists. reflexivity.
Qed.

Lemma move_failure_ends_sequence_witness :
  exists m',
    solo (perform move_sequence {| STOP_MOVE_SEQUENCE := true; observers := [] |})
      [(ok, id); (Done, id); (ok, id); (Done, id);
       (Result Timeout {| isSuccess := false |}, id)]
    = (m',
       [Store false;
        Call (MoveRobot FORWARD 9);
        Printed (Move_result {| isSuccess := true |}); Call (asyncio_sleep 1);
        Call (MoveRobot BACKWARD 4);
        Printed (Move_result {| isSuccess := true |}); Call (asyncio_sleep 1);
        Call (MoveRobot RIGHTWARD 6);
        Printed (Move_result {| isSuccess := false |})],
       Returned tt).
Proof.
  apply (move_failure_ends_sequence 2 Timeout {| isSuccess := false |}).
  - lia.
  - reflexivity.
  - reflexivity.
  - repeat constructor; intros m H; exact H.
Defined.

(** ** The obstacle handler *)

(** C2: a handler whose reading is below 150 stops its observer, sets the
    flag, announces the obstacle, waits 2 seconds, issues one retreat
    ([Backward 5], settled for a second when it worked, its result
    unused), waits 2 seconds again, clears the flag, starts the observer
    again and invokes [move_sequence], which begins with [Forward 9]:
    over the answers to these calls, whatever the other tasks do
    meanwhile, its actions are [recovery], and it is left where a fresh
    invocation of [move_sequence] is after its first command. *)
Theorem recovery_protocol (observer : nat) (distance : Z) (m : shared)
    (t : MiniApiResultType) (r : response)
    (mt : MiniApiResultType) (mr : response)
    (env : list (answer * (shared -> shared))) :
  distance < 150 ->
  map fst env = recovery_answers t r mt mr ->
  exists m',
    solo (perform (observe_infrared_distance_handler observer distance) m) env
    = (m', recovery observer distance t r mt mr,
       snd (perform move_sequence m))
    /\ STOP_MOVE_SEQUENCE m' = false
    /\ moves (recovery observer distance t r mt mr)
       = [MoveRobot BACKWARD 5; MoveRobot FORWARD 9].
Proof.
  intros Hd Ha. apply Z.ltb_lt in Hd.
  unfold recovery_answers, recovery in *.
  destruct (is_Success mt && isSuccess mr) eqn:Hmove; simpl in Ha.
  - do 5 (destruct env as [| [? ?] env]; [discriminate Ha |]).
    destruct env; [| discriminate Ha]. simpl in Ha.
    injection Ha as -> -> -> -> ->.
    begin_with Hd. do 2 resume. resume_with Hmove. do 2 resume.
    eexists. repeat split.
  - do 4 (destruct env as [| [? ?] env]; [discriminate Ha |]).
    destruct env; [| discriminate Ha]. simpl in Ha.
    injection Ha as -> -> -> ->.
    begin_with Hd. do 2 resume. resume_with Hmove. do 1 resume.
    eexists. repeat split.
Qed.

Lemma recovery_protocol_witness :
  exists m',
    solo (perform (observe_infrared_distance_handler 1 120)
            {| STOP_MOVE_SEQUENCE := false; observers := listening_stopped |})
         [(ok, id); (Done, id); (ok, id); (Done, id); (Done, id)]
    = (m',
       recovery 1 120 Success {| isSuccess := true |}
         Success {| isSuccess := true |},
       snd (perform move_sequence
              {| STOP_MOVE_SEQUENCE := false; observers := listening_stopped |}))
    /\ STOP_MOVE_SEQUENCE m' = false
    /\ moves (recovery 1 120 Success {| isSuccess := true |}
                Success {| isSuccess := true |})
       = [MoveRobot BACKWARD 5; MoveRobot FORWARD 9].
Proof.
  apply (recovery_protocol 1 120 _ Success {| isSuccess := true |}
           Success {| isSuccess := true |}); [lia | reflexivity].
Defined.

(** C6 (counterexample): the handler is not run by the stream but by a
    task, created on delivery and started later, and the observer is
    stopped by that task.  Two close readings delivered before the first
    task has run each get a task, and both trip: after [burst] the log
    shows two trips in a row and no start of the observer in between. *)
Lemma second_trip_before_resume :
  exists w0 w,
    run boot (startup alphamini true ++ hello "hello.") = Some w0
    /\ run w0 burst = Some w
    /\ history w = history w0 ++ trip 1 120 ++ trip 1 110.
Proof.
  eexists _, _. split; [vm_compute; reflexivity |].
  split; [vm_compute; reflexivity |]. reflexivity.
Qed.

(** C6 (amended): a handler trips exactly when its reading is below 150.
    When its task is started with a reading of 150 or more it prints the
    reading and is finished.  With a reading below 150 its first stretch
    stops the observer, then sets the flag, then announces the obstacle;
    the observer is then stopped, and in any world where it is stopped a
    message delivered to it is dropped: no task is created for it until
    the observer is started again. *)
Theorem obstacle_monitor (w : world) (ob : observer) (tid observer : nat)
    (distance : Z) :
  tasks w !! tid
  = Some (Pending (observe_infrared_distance_handler observer distance)) ->
  observers (memory w) !! observer = Some ob ->
  exists w1,
    step w (Start tid) = Some w1
    /\ (150 <= distance ->
        w1 = {| memory := memory w;
                tasks := <[tid := Finished]> (tasks w);
                log := log w ++ [(tid, Printed (Distance_is distance))] |})
    /\ (distance < 150 ->
        (exists k,
           w1 = {| memory :=
                     set_STOP_MOVE_SEQUENCE true
                       (set_observers (alter (with_started false) observer)
                          (memory w));
                   tasks :=
                     <[tid := Suspended
                                (StartPlayTTS
                                   "Obstacle detected, stopping movement.") k]>
                       (tasks w);
                   log := log w ++ map (pair tid) (trip observer distance) |})
        /\ observers (memory w1) !! observer = Some (with_started false ob))
    /\ (forall w2 ob2 msg w',
          observers (memory w2) !! observer = Some ob2 ->
          started ob2 = false ->
          step w2 (Deliver observer msg) = Some w' -> w' = w2).
Proof.
  intros Ht Hob. eexists. split; [simpl; rewrite Ht; reflexivity |].
  split; [| split].
  - intros Hd. apply Z.ltb_ge in Hd. unfold advance. cbn. rewrite Hd.
    reflexivity.
  - intros Hd. apply Z.ltb_lt in Hd. split.
    + unfold advance. cbn. rewrite Hd. cbn. eexists. reflexivity.
    + unfold advance. cbn. rewrite Hd. cbn.
      rewrite list_lookup_alter_eq, Hob. reflexivity.
  - intros w2 ob2 msg w'. apply step_dropped.
Qed.

(** The third reading of the specification's example trips; the fourth,
    delivered to the observer that the handler has stopped, is dropped. *)
Lemma obstacle_monitor_witness :
  exists w0 w1,
    run boot (startup alphamini true ++ hello "hello."
              ++ [Deliver 1%nat (ObserveInfraredDistanceResponse 120)])
    = Some w0
    /\ step w0 (Start 2%nat) = Some w1
    /\ own 2 (log w1) = trip 1 120
    /\ step w1 (Deliver 1%nat (ObserveInfraredDistanceResponse 300)) = Some w1.
Proof.
  destruct (run boot (startup alphamini true ++ hello "hello."
                      ++ [Deliver 1%nat (ObserveInfraredDistanceResponse 120)]))
    as [w0 |] eqn:Hr; [| vm_compute in Hr; discriminate Hr].
  assert (Hw0 : tasks w0 !! 2%nat
                = Some (Pending (observe_infrared_distance_handler 1 120))
                /\ observers (memory w0) !! 1%nat
                   = Some {| class := ObserveInfraredDistance;
                             handler := Some (infrared_lambda 1);
                             started := true |}
                /\ own 2 (log w0) = []).
  { vm_compute in Hr. injection Hr as <-. repeat split. }
  destruct Hw0 as (Ht & Hob & Hown).
  destruct (obstacle_monitor w0 _ 2 1 120 Ht Hob)
    as (w1 & Hs & _ & Htrip & Hdrop).
  destruct (Htrip ltac:(lia)) as [[k Hw1] Hob1].
  exists w0, w1. repeat split.
  - exact Hs.
  - rewrite Hw1. cbn [log]. rewrite own_app, Hown, own_same. reflexivity.
  - destruct (step w1 (Deliver 1%nat (ObserveInfraredDistanceResponse 300)))
      as [w' |] eqn:Hd.
    + rewrite (Hdrop w1 _ _ _ Hob1 eq_refl Hd). reflexivity.
    + simpl in Hd. rewrite Hob1 in Hd. discriminate Hd.
Defined.

(** ** The speech handler *)

(** C7: the handler lowers and strips the text and compares it with two
    words.  For ["hello."] it announces the start, stops its observer,
    subscribes a new distance observer and goes on with [move_sequence];
    for ["finish."] it announces the end, stops its observer, quits the
    program mode and releases the robot; for any other text it does
    nothing at all beyond printing the text it compared (the memory is
    unchanged and no call is made).  [text] is any text of code points
    below 256; on these [strip] and [lower] are [str.strip] and
    [str.lower], the no-break space and NEXT LINE among the blanks and
    the capitals beyond Z among the letters ([isspace_table],
    [lower_char_table]). *)
Theorem command_listener (observer : nat) (text : string) (m : shared) :
  (lower (strip text) = "hello." ->
   forall t r others,
     solo (perform (observe_speech_handler observer text) m)
       [(Result t r, others)]
     = (watching
          (set_observers (alter (with_started false) observer) (others m)),
        start_task observer t r (length (observers (others m))),
        Blocked (asyncio_sleep 0) (fun _ => move_sequence)))
  /\ (lower (strip text) = "finish." ->
      forall t r f1 f2 f3,
        solo (perform (observe_speech_handler observer text) m)
          [(Result t r, f1); (Done, f2); (Done, f3)]
        = (f3 (f2 (set_observers (alter (with_started false) observer)
                     (f1 m))),
           abort observer t r, Returned tt))
  /\ (lower (strip text) <> "hello." -> lower (strip text) <> "finish." ->
      perform (observe_speech_handler observer text) m
      = (m, [Printed (Raw_Speech_Recognition_Output (lower (strip text)))],
         Returned tt)).
Proof.
  unfold observe_speech_handler. repeat split.
  - intros H t r others. rewrite H. begin. resume.
    unfold watching, set_observers, start_task. simpl.
    rewrite !alter_fresh, !length_alter. reflexivity.
  - intros H t r f1 f2 f3. rewrite H. begin. do 3 resume. reflexivity.
  - intros Hh Hf. apply String.eqb_neq in Hh, Hf. cbn. rewrite Hh, Hf.
    reflexivity.
Qed.

Lemma command_listener_witness :
  solo (perform (observe_speech_handler 0 "  Hello. ")
          {| STOP_MOVE_SEQUENCE := false;
             observers :=
               [{| class := ObserveSpeechRecognise;
                   handler := Some (speech_lambda 0); started := true |}] |})
    [(ok, id)]
  = ({| STOP_MOVE_SEQUENCE := false; observers := listening_stopped |},
     start_task 0 Success {| isSuccess := true |} 1,
     Blocked (asyncio_sleep 0) (fun _ => move_sequence)).
Proof.
  exact (proj1 (command_listener 0 "  Hello. " _) eq_refl
           Success {| isSuccess := true |} id).
Defined.

(** C4 (counterexample): ["finish."] is handled by a task that knows
    nothing of the other tasks.  Heard while the start is being
    announced, its handler announces the end, stops the speech observer,
    quits and releases; task 1 still issues [Forward 9] after the
    handling has begun and [Backward 4] after the robot was released,
    and the distance observer stays subscribed. *)
Lemma commands_after_abort :
  exists w k,
    run boot finish_while_starting = Some w
    /\ calls (history w)
       = [Mini_get_device_by_name "00345" 10; Mini_connect alphamini;
          Mini_enter_program; asyncio_sleep 1;
          StartPlayTTS "Starting cleaning process";
          StartPlayTTS "Shutting down.";
          asyncio_sleep 0;
          MoveRobot FORWARD 9;
          Mini_quit_program; Mini_release;
          asyncio_sleep 1;
          MoveRobot BACKWARD 4]
    /\ tasks w !! 2%nat = Some Finished
    /\ tasks w !! 1%nat = Some (Suspended (MoveRobot BACKWARD 4) k)
    /\ (started <$> observers (memory w) !! 1%nat) = Some true.
Proof.
  eexists _, _. split; [vm_compute; reflexivity |]. repeat split.
Qed.

(** C4 (amended): the handler of ["finish."], given its three answers,
    announces the end, stops the speech observer, quits the program mode
    and releases the robot, in this order.  It issues no movement command
    itself and changes nothing else: the flag, the other observers and
    all other tasks are as before (no task is cancelled).  Afterwards a
    message delivered to the speech observer is dropped. *)
Theorem abort_stops_listening_only (w : world) (tid observer : nat)
    (text : string) (t : MiniApiResultType) (r : response) :
  lower (strip text) = "finish." ->
  tasks w !! tid = Some (Pending (observe_speech_handler observer text)) ->
  exists w',
    run w [Start tid; Resume tid (Result t r); Resume tid Done; Resume tid Done]
    = Some w'
    /\ log w' = log w ++ map (pair tid) (abort observer t r)
    /\ moves (abort observer t r) = []
    /\ memory w'
       = set_observers (alter (with_started false) observer) (memory w)
    /\ tasks w' = <[tid := Finished]> (tasks w)
    /\ forall msg w'',
         (observer < length (observers (memory w)))%nat ->
         step w' (Deliver observer msg) = Some w'' -> w'' = w'.
Proof.
  intros Hfinish Ht.
  assert (Hlt : (tid < length (tasks w))%nat) by (eapply lookup_lt_Some, Ht).
  eexists. split.
  - simpl. rewrite Ht.
    unfold advance at 1. unfold observe_speech_handler. rewrite Hfinish. cbn.
    repeat (rewrite list_lookup_insert_eq by (rewrite ?length_insert; exact Hlt);
            cbn).
    reflexivity.
  - simpl. repeat split.
    + rewrite <- !app_assoc. reflexivity.
    + rewrite !list_insert_insert_eq. reflexivity.
    + intros msg w'' Hob Hs.
      destruct (lookup_lt_is_Some_2 _ _ Hob) as [ob Hob'].
      eapply step_dropped; [| | exact Hs].
      * simpl. rewrite list_lookup_alter_eq, Hob'. reflexivity.
      * reflexivity.
Qed.

(** ["finish."] as the first utterance: the robot is released and the
    program listens no more. *)
Lemma abort_stops_listening_only_witness :
  exists w0 w',
    run boot (startup alphamini true
              ++ [Deliver 0%nat (SpeechRecogniseResponse " FINISH. ")])
    = Some w0
    /\ run w0 [Start 1%nat; Resume 1%nat ok; Resume 1%nat Done; Resume 1%nat Done]
       = Some w'
    /\ log w' = log w0 ++ map (pair 1%nat) (abort 0 Success {| isSuccess := true |})
    /\ tasks w' = <[1%nat := Finished]> (tasks w0).
Proof.
  destruct (run boot (startup alphamini true
                      ++ [Deliver 0%nat (SpeechRecogniseResponse " FINISH. ")]))
    as [w0 |] eqn:Hr; [| vm_compute in Hr; discriminate Hr].
  assert (Ht : tasks w0 !! 1%nat
               = Some (Pending (observe_speech_handler 0 " FINISH. "))).
  { vm_compute in Hr. injection Hr as <-. reflexivity. }
  destruct (abort_stops_listening_only w0 1 0 " FINISH. " Success
              {| isSuccess := true |} eq_refl Ht)
    as (w' & Hrun & Hlog & _ & _ & Htasks & _).
  exists w0, w'. repeat split; assumption.
Defined.

(** ** Startup *)

(** C8: when discovery returns no device, [main] returns at once: the
    only call ever made is the one discovery (no retry), no observer is
    created and the only task is finished; no event can change this
    afterwards. *)
Theorem no_device_no_start :
  run boot [Start 0%nat; Resume 0%nat (Device None)] = Some not_found
  /\ calls (history not_found) = [Mini_get_device_by_name "00345" 10]
  /\ forall es w, run not_found es = Some w -> w = not_found.
Proof.
  split; [reflexivity | split; [reflexivity |]].
  intros es w. destruct es as [| e es]; simpl.
  - congruence.
  - destruct e as [obs msg | [| tid] | [| tid] a]; simpl; try discriminate.
Qed.

(** C10: the value of [connection(device)] is dropped: for either result
    of the connect call, [main] goes on to enter program mode and to
    subscribe the speech observer, and then idles. *)
Theorem connect_result_ignored (dev : WiFiDevice) (connected : bool) :
  exists w,
    run boot (startup dev connected) = Some w
    /\ calls (history w) =
         [Mini_get_device_by_name "00345" 10; Mini_connect dev;
          Mini_enter_program; asyncio_sleep 1]
    /\ observers (memory w) =
         [{| class := ObserveSpeechRecognise;
             handler := Some (speech_lambda 0);
             started := true |}]
    /\ tasks w = [idle].
Proof. eexists. repeat split. Qed.

(** ** What the program never does *)

(** Unfolds [never] along a coroutine of the program. *)
Ltac never_all :=
  repeat first
    [ progress cbn
    | split
    | intro
    | match goal with
      | |- context [let '(_, _) := ?p in _] => destruct p
      | |- context [if ?b then _ else _] => destruct b eqn:?
      | |- context [match ?x with Some _ => _ | None => _ end] => destruct x
      end ];
  try reflexivity; try exact I.

Lemma moves_none l :
  Forall (fun e : nat * action => moving (snd e) = false) l ->
  moves (map snd l) = [].
Proof.
  induction l as [| [tid a] l IH]; intros H; [reflexivity |].
  apply Forall_cons_1 in H as [Ha Hl]. specialize (IH Hl).
  unfold moves, calls in *. simpl in *.
  destruct a as [[] | | | | | |]; simpl in *; try discriminate; exact IH.
Qed.

(** X1: the robot is not moved before ["hello."] is recognised.  In any
    run from the start of the program in which no utterance delivered is
    ["hello."] (blanks and case apart, as [str.strip] and [str.lower]
    have them on text of code points below 256), whatever else is said
    and however the robot answers, no [MoveRobot] command is issued. *)
Theorem no_move_before_hello (es : list event) (w : world) :
  Forall (permitted not_hello) es ->
  run boot es = Some w ->
  moves (history w) = [].
Proof.
  intros Hes Hr.
  destruct (run_safe moving any_index speech_only not_hello) with
    (es := es) (w := boot) (w' := w) as (_ & _ & acts & Hl & Ha); auto.
  - intros [n | n] [d | text] c Ht Hm Hi; simpl in *; try contradiction;
      try discriminate.
    injection Hi as <-. apply String.eqb_neq in Hm.
    unfold observe_speech_handler. cbn. rewrite Hm. never_all.
  - split.
    + split; [intros; exact I |]. intros j ob h Hj. destruct j; discriminate.
    + repeat constructor. never_all.
  - unfold history. rewrite Hl. simpl. apply moves_none. exact Ha.
Qed.

Lemma no_move_before_hello_witness :
  exists w, run boot chatter = Some w /\ moves (history w) = [].
Proof.
  destruct (run boot chatter) as [w |] eqn:Hr;
    [| vm_compute in Hr; discriminate Hr].
  exists w. split; [reflexivity |].
  apply (no_move_before_hello chatter w); [| exact Hr].
  repeat constructor; simpl; discriminate.
Defined.

(** X2: the program quits the program mode and releases the robot only
    on ["finish."].  In any run in which no utterance delivered is
    ["finish."] (blanks and case apart, as [str.strip] and [str.lower]
    have them on text of code points below 256), neither
    [Mini.quit_program] nor [Mini.release] is ever called: not at the end of the sequence, not after a failed step, not
    after an obstacle. *)
Theorem released_only_on_finish (es : list event) (w : world) :
  Forall (permitted not_finish) es ->
  run boot es = Some w ->
  Forall (fun a => leaving a = false) (history w).
Proof.
  intros Hes Hr.
  destruct (run_safe leaving any_index any_closure not_finish) with
    (es := es) (w := boot) (w' := w) as (_ & _ & acts & Hl & Ha); auto.
  - intros [n | n] [d | text] c _ Hm Hi; simpl in *; try discriminate;
      injection Hi as <-.
    + never_all.
    + apply String.eqb_neq in Hm.
      unfold observe_speech_handler. cbn.
      destruct (String.eqb (lower (strip text)) "hello."); [| rewrite Hm];
        never_all.
  - split.
    + split; [intros; exact I |]. intros j ob h Hj. destruct j; discriminate.
    + repeat constructor. never_all.
  - unfold history. rewrite Hl. simpl. apply Forall_map. exact Ha.
Qed.

Lemma released_only_on_finish_witness :
  exists w,
    run boot eventful = Some w
    /\ Forall (fun a => leaving a = false) (history w).
Proof.
  destruct (run boot eventful) as [w |] eqn:Hr;
    [| vm_compute in Hr; discriminate Hr].
  exists w. split; [reflexivity |].
  apply (released_only_on_finish eventful w); [| exact Hr].
  repeat constructor; simpl; discriminate.
Defined.

(** X3: only a reading below 150 makes the program react to an obstacle.
    In any run in which every reading delivered is at least 150,
    [STOP_MOVE_SEQUENCE] is never set, the obstacle is never announced
    and [Backward 5] is never issued, whatever is said and however the
    robot answers. *)
Theorem no_trip_without_close_reading (es : list event) (w : world) :
  Forall (permitted not_close) es ->
  run boot es = Some w ->
  STOP_MOVE_SEQUENCE (memory w) = false
  /\ Forall (fun a => tripping a = false) (history w).
Proof.
  intros Hes Hr.
  destruct (run_safe tripping any_index any_closure not_close) with
    (es := es) (w := boot) (w' := w) as (_ & [Hflag _] & acts & Hl & Ha); auto.
  - intros [n | n] [d | text] c _ Hm Hi; simpl in *; try discriminate;
      injection Hi as <-.
    + apply Z.ltb_ge in Hm. unfold observe_infrared_distance_handler. cbn.
      rewrite Hm. never_all.
    + never_all.
  - split.
    + split; [intros; exact I |]. intros j ob h Hj. destruct j; discriminate.
    + repeat constructor. never_all.
  - split.
    + destruct (STOP_MOVE_SEQUENCE (memory w)) eqn:E; [| reflexivity].
      discriminate (Hflag eq_refl eq_refl).
    + unfold history. rewrite Hl. simpl. apply Forall_map. exact Ha.
Qed.

Lemma no_trip_without_close_reading_witness :
  exists w,
    run boot (startup alphamini true ++ hello "hello." ++ tl smooth) = Some w
    /\ STOP_MOVE_SEQUENCE (memory w) = false
    /\ Forall (fun a => tripping a = false) (history w).
Proof.
  destruct (run boot (startup alphamini true ++ hello "hello." ++ tl smooth))
    as [w |] eqn:Hr; [| vm_compute in Hr; discriminate Hr].
  exists w. split; [reflexivity |].
  apply (no_trip_without_close_reading
           (startup alphamini true ++ hello "hello." ++ tl smooth) w);
    [| exact Hr].
  repeat constructor; simpl; lia.
Defined.

Lemma listening_safe dev :
  (forall h msg c,
     elsewhere h -> any_message msg -> invoke h msg = Some c ->
     never listening_again (fun i => i <> 0%nat) elsewhere c)
  /\ safe listening_again (fun i => i <> 0%nat) elsewhere (listening dev).
Proof.
  split.
  - intros [n | n] [d | text] c Hn _ Hi; simpl in *; try discriminate;
      injection Hi as <-.
    + destruct n; [contradiction |]. never_all.
    + never_all; congruence.
  - split.
    + split.
      * simpl. intros i Hi. lia.
      * intros [| j] ob h Hj Hh; [| destruct j; discriminate].
        injection Hj as <-. injection Hh as <-. exact I.
    + repeat constructor.
Qed.

(** X4: once the program has stopped listening it never listens again.
    The speech observer is started once, by [observe_speech]; when a
    handler of ["hello."] or ["finish."] has stopped it, no later event
    starts it again, so every utterance delivered from then on,
    ["finish."] during a run included, is dropped. *)
Theorem never_listens_again (dev : WiFiDevice) (connected : bool)
    (es1 es2 : list event) (w1 w2 : world) :
  run boot (startup dev connected ++ es1) = Some w1 ->
  run w1 es2 = Some w2 ->
  (forall ob, observers (memory w1) !! 0%nat = Some ob -> started ob = false) ->
  forall msg w', step w2 (Deliver 0%nat msg) = Some w' -> w' = w2.
Proof.
  intros Hr1 Hr2 Hstopped msg w' Hs.
  rewrite run_app in Hr1.
  assert (Hstart : run boot (startup dev connected) = Some (listening dev))
    by reflexivity.
  rewrite Hstart in Hr1.
  destruct (listening_safe dev) as [Hinv Hsafe].
  assert (Hall : forall es, Forall (permitted any_message) es).
  { intros es. apply Forall_forall. intros [] _; exact I. }
  destruct (run_safe _ _ _ _ Hinv es1 _ _ Hsafe (Hall es1) Hr1)
    as (Hsafe1 & _ & _).
  destruct (run_safe _ _ _ _ Hinv es2 _ _ Hsafe1 (Hall es2) Hr2)
    as (_ & [_ Hkept] & _).
  simpl in Hs.
  destruct (observers (memory w2) !! 0%nat) as [ob2 |] eqn:Hob2;
    [| discriminate].
  destruct (started ob2) eqn:Hst2.
  - destruct (Hkept 0%nat ob2 eq_refl Hob2 Hst2) as (ob1 & Hob1 & Hst1).
    rewrite (Hstopped ob1 Hob1) in Hst1. discriminate.
  - destruct (handler ob2) as [h |]; [destruct (invoke h msg) |]; congruence.
Qed.

(** ["finish."] said while the obstacle of [eventful] is handled. *)
Lemma never_listens_again_witness :
  exists w2,
    run boot eventful = Some w2
    /\ step w2 (Deliver 0%nat (SpeechRecogniseResponse "finish.")) = Some w2.
Proof.
  destruct (run boot (startup alphamini false ++ hello "hello.")) as [w1 |]
    eqn:Hr1; [| vm_compute in Hr1; discriminate Hr1].
  assert (Hstopped : forall ob,
             observers (memory w1) !! 0%nat = Some ob -> started ob = false).
  { vm_compute in Hr1. injection Hr1 as <-. intros ob Hob.
    injection Hob as <-. reflexivity. }
  destruct (run w1 (skipn 8 eventful)) as [w2 |] eqn:Hr2;
    [| vm_compute in Hr1; injection Hr1 as <-;
       vm_compute in Hr2; discriminate Hr2].
  exists w2. split.
  - change eventful
      with ((startup alphamini false ++ hello "hello.") ++ skipn 8 eventful).
    rewrite run_app, Hr1. exact Hr2.
  - destruct (step w2 (Deliver 0%nat (SpeechRecogniseResponse "finish.")))
      as [w' |] eqn:Hs.
    + rewrite (never_listens_again alphamini false (hello "hello.")
                 (skipn 8 eventful) w1 w2 Hr1 Hr2 Hstopped _ _ Hs).
      reflexivity.
    + vm_compute in Hr1. injection Hr1 as <-.
      vm_compute in Hr2. injection Hr2 as <-. discriminate Hs.
Defined.

(** ** The loop of [main] *)

Lemma idle_step w e w' :
  tasks w !! 0%nat = Some idle -> step w e = Some w' ->
  tasks w' !! 0%nat = Some idle.
Proof.
  intros H0 Hs. destruct (turn_of 0 e) eqn:Hturn.
  - destruct e as [? ? | tid | tid a]; simpl in Hturn; [discriminate | |];
      apply Nat.eqb_eq in Hturn; subst tid; simpl in Hs; rewrite H0 in Hs;
      [discriminate |].
    unfold idle in Hs. destruct a; try discriminate. simpl in Hs.
    injection Hs as <-. simpl.
    apply list_lookup_insert_eq. eapply lookup_lt_Some, H0.
  - destruct (step_other w e w' 0 idle Hs Hturn H0) as [H _]. exact H.
Qed.

(** X5: once the robot is found, [main] never returns.  After the
    startup its task sleeps one second at a time for ever, whatever
    happens: the end of the sequence, a failed step or ["finish."] and
    the release of the robot do not end the program. *)
Theorem main_never_returns (dev : WiFiDevice) (connected : bool)
    (es : list event) (w : world) :
  run boot (startup dev connected ++ es) = Some w ->
  tasks w !! 0%nat = Some idle.
Proof.
  rewrite run_app.
  change (run boot (startup dev connected)) with (Some (listening dev)).
  assert (H0 : tasks (listening dev) !! 0%nat = Some idle) by reflexivity.
  revert H0. generalize (listening dev).
  induction es as [| e es IH]; intros w0 H0 Hr; simpl in Hr.
  - injection Hr as <-. exact H0.
  - destruct (step w0 e) as [w1 |] eqn:Hs; [| discriminate].
    eapply IH; [| exact Hr]. eapply idle_step; eassumption.
Qed.

(** After ["finish."] and the release of the robot, [main] still sleeps. *)
Lemma main_never_returns_witness :
  exists w,
    run boot chatter = Some w
    /\ last (calls (history w)) = Some (asyncio_sleep 1)
    /\ tasks w !! 0%nat = Some idle.
Proof.
  destruct (run boot chatter) as [w |] eqn:Hr;
    [| vm_compute in Hr; discriminate Hr].
  exists w. split; [reflexivity |]. split.
  - vm_compute in Hr. injection Hr as <-. reflexivity.
  - exact (main_never_returns alphamini true (skipn 4 chatter) w Hr).
Defined.

(** ** Interrupts that the sequence sees *)

(** X6: the sequence stops at the three tests that read the flag.  When
    the flag is set at the end of the settle delay of step 1, 3 or 4 (the
    steps before having worked with the flag clear), [move_sequence]
    returns there: no later step is issued, and after step 4 the end is
    not announced. *)
Theorem interrupt_ends_sequence (i : nat) (m : shared)
    (env : list (answer * (shared -> shared))) (others : shared -> shared) :
  i = 1%nat \/ i = 3%nat \/ i = 4%nat ->
  map fst env = concat (repeat [ok; Done] i) ->
  Forall calm (removelast (map snd env)) ->
  last (map snd env) = Some others -> asserting others ->
  exists m',
    solo (perform move_sequence m) env
    = (m', Store false :: concat (map worked (firstn i plan)), Returned tt)
    /\ STOP_MOVE_SEQUENCE m' = true.
Proof.
  intros Hi Ha Hc Hl Hs.
  destruct Hi as [-> | [-> | ->]]; simpl in Ha.
  - do 2 (destruct env as [| [? ?] env]; [discriminate Ha |]).
    destruct env; [| discriminate Ha]. simpl in Ha. injection Ha as -> ->.
    simpl in Hc, Hl. injection Hl as ->. calm_hyps.
    begin. resume. resume_with Hs. eexists. split; [reflexivity |].
    apply Hs.
  - do 6 (destruct env as [| [? ?] env]; [discriminate Ha |]).
    destruct env; [| discriminate Ha]. simpl in Ha.
    injection Ha as -> -> -> -> -> ->.
    simpl in Hc, Hl. injection Hl as ->. calm_hyps.
    begin. do 5 resume. resume_with Hs.
    eexists. split; [reflexivity |]. apply Hs.
  - do 8 (destruct env as [| [? ?] env]; [discriminate Ha |]).
    destruct env; [| discriminate Ha]. simpl in Ha.
    injection Ha as -> -> -> -> -> -> -> ->.
    simpl in Hc, Hl. injection Hl as ->. calm_hyps.
    begin. do 7 resume. resume_with Hs.
    eexists. split; [reflexivity |]. apply Hs.
Qed.

(** The flag is set while the last step settles: no announcement. *)
Lemma interrupt_ends_sequence_witness :
  exists m',
    solo (perform move_sequence {| STOP_MOVE_SEQUENCE := false; observers := [] |})
      [(ok, id); (Done, id); (ok, id); (Done, id); (ok, id); (Done, id);
       (ok, id); (Done, set_STOP_MOVE_SEQUENCE true)]
    = (m', Store false :: concat (map worked plan), Returned tt)
    /\ STOP_MOVE_SEQUENCE m' = true.
Proof.
  apply (interrupt_ends_sequence 4 _ _ (set_STOP_MOVE_SEQUENCE true)).
  - right. right. reflexivity.
  - reflexivity.
  - repeat constructor; intros m H; exact H.
  - reflexivity.
  - intros m. reflexivity.
Defined.

(** ** Text that is recognised alike *)

Lemma list_ascii_of_string_append (s1 s2 : string) :
  list_ascii_of_string (s1 ++ s2)%string
  = list_ascii_of_string s1 ++ list_ascii_of_string s2.
Proof.
  induction s1 as [| c s1 IH]; simpl; [reflexivity |]. rewrite IH. reflexivity.
Qed.

Lemma lstrip_blanks ws l :
  forallb isspace ws = true -> lstrip (ws ++ l) = lstrip l.
Proof.
  induction ws as [| c ws IH]; simpl; [reflexivity |].
  intros H. apply andb_true_iff in H as [Hc Hws]. rewrite Hc. exact (IH Hws).
Qed.

Lemma rstrip_blanks l ws :
  forallb isspace ws = true ->
  rev (lstrip (rev (l ++ ws))) = rev (lstrip (rev l)).
Proof.
  intros H. rewrite rev_app_distr, lstrip_blanks; [reflexivity |].
  rewrite forallb_forall in *. intros c Hc. apply H. apply in_rev. exact Hc.
Qed.

Lemma strip_blanks_right l ws :
  forallb isspace ws = true ->
  rev (lstrip (rev (lstrip (l ++ ws)))) = rev (lstrip (rev (lstrip l))).
Proof.
  intros H. induction l as [| c l IH]; simpl.
  - rewrite <- (app_nil_r ws), lstrip_blanks by exact H. reflexivity.
  - destruct (isspace c); [exact IH |].
    change (c :: l ++ ws) with ((c :: l) ++ ws). apply rstrip_blanks, H.
Qed.

Lemma isspace_lower c : isspace (lower_char c) = isspace c.
Proof. destruct c as [[] [] [] [] [] [] [] []]; reflexivity. Qed.

Lemma lstrip_lower l :
  map lower_char (lstrip l) = lstrip (map lower_char l).
Proof.
  induction l as [| c l IH]; simpl; [reflexivity |].
  rewrite isspace_lower. destruct (isspace c); [exact IH | reflexivity].
Qed.

(** Lowering and stripping commute. *)
Lemma lower_strip s : lower (strip s) = strip (lower s).
Proof.
  unfold lower, strip. rewrite !list_ascii_of_string_of_list_ascii.
  rewrite map_rev, lstrip_lower, map_rev, lstrip_lower. reflexivity.
Qed.

Lemma strip_padded pre text post :
  blank pre -> blank post -> strip (pre ++ text ++ post)%string = strip text.
Proof.
  unfold blank, strip. intros Hpre Hpost.
  rewrite !list_ascii_of_string_append, lstrip_blanks by exact Hpre.
  rewrite strip_blanks_right by exact Hpost. reflexivity.
Qed.

(** X7: the speech handler does not tell apart texts that differ in
    letter case or in blanks at either end: for [text] and [text'] equal
    up to case, the handler of [text] with blanks before and after it is
    the handler of [text']. *)
Theorem recognition_ignores_case_and_blanks (observer : nat)
    (pre text post text' : string) :
  blank pre -> blank post -> lower text = lower text' ->
  observe_speech_handler observer (pre ++ text ++ post)%string
  = observe_speech_handler observer text'.
Proof.
  intros Hpre Hpost Hcase. unfold observe_speech_handler.
  rewrite strip_padded by assumption.
  rewrite !lower_strip, Hcase. reflexivity.
Qed.

Lemma recognition_ignores_case_and_blanks_witness :
  observe_speech_handler 0 "   HeLLo. " = observe_speech_handler 0 "hello.".
Proof.
  exact (recognition_ignores_case_and_blanks 0 "   " "HeLLo." " " "hello."
           eq_refl eq_refl eq_refl).
Defined.

(** ** An obstacle after the end *)

(** X8: the distance observer stays subscribed when the sequence has
    ended.  After a run without obstacle that has completed, a reading
    below 150 is still handled: the obstacle is announced, the robot
    retreats, and the whole plan is issued and announced a second time;
    the memory is then as it was. *)
Theorem obstacle_after_completion (dev : WiFiDevice) (t : MiniApiResultType)
    (r : response) (es : list event) (w : world) (distance : Z) :
  all_quiet (running dev t r) es = true ->
  run (running dev t r) es = Some w ->
  answered es = 10%nat ->
  distance < 150 ->
  exists w',
    run w (late_obstacle (length (tasks w)) distance) = Some w'
    /\ commands (history w')
       = full
         ++ [StartPlayTTS "Obstacle detected, stopping movement.";
             MoveRobot BACKWARD 5]
         ++ plan ++ [announcement]
    /\ memory w' = memory w.
Proof.
  intros Hq Hr H10 Hd. apply Z.ltb_lt in Hd.
  pose proof (steady_run es 0 _ _ (running_steady dev t r) Hq Hr) as Hst.
  rewrite H10 in Hst. simpl in Hst. destruct Hst as [_ Hm _ _ _ Hc].
  unfold late_obstacle.
  set (tid := length (tasks w)).
  eexists. split.
  - cbn. rewrite Hm. cbn.
    rewrite list_lookup_middle by reflexivity. cbn.
    unfold advance at 1. cbn. rewrite Hd. cbn.
    repeat (rewrite list_lookup_insert_eq
              by (rewrite ?length_insert, length_app; simpl; lia);
            cbn).
    reflexivity.
  - split.
    + unfold history. cbn [log]. rewrite !map_app. fold (history w).
      rewrite !commands_app, Hc. reflexivity.
    + cbn. rewrite Hm. reflexivity.
Qed.

Lemma obstacle_after_completion_witness :
  exists w w',
    run (running alphamini Success {| isSuccess := true |}) smooth = Some w
    /\ run w (late_obstacle (length (tasks w)) 100) = Some w'
    /\ commands (history w')
       = full
         ++ [StartPlayTTS "Obstacle detected, stopping movement.";
             MoveRobot BACKWARD 5]
         ++ plan ++ [announcement].
Proof.
  destruct (run (running alphamini Success {| isSuccess := true |}) smooth)
    as [w |] eqn:Hr; [| vm_compute in Hr; discriminate Hr].
  destruct (obstacle_after_completion alphamini Success {| isSuccess := true |}
              smooth w 100 eq_refl Hr eq_refl ltac:(lia))
    as (w' & Hrun & Hcmd & _).
  exists w, w'. repeat split; assumption.
Defined.

(** ** Two commands at once *)

(** X9: the obstacle handler does not wait for the step in flight.  While
    another task awaits the answer to a movement command, a handler of a
    reading below 150, once its announcement and its first cooldown are
    over, issues [Backward 5]: the other task is still waiting for its
    answer, so two movement commands are outstanding. *)
Theorem retreat_does_not_wait (w : world) (tid tid' observer : nat)
    (distance : Z) (direction : MoveRobotDirection) (step : Z)
    (k : reply (MoveRobot direction step) -> coro unit)
    (t : MiniApiResultType) (r : response) :
  tid <> tid' ->
  tasks w !! tid
  = Some (Pending (observe_infrared_distance_handler observer distance)) ->
  tasks w !! tid' = Some (Suspended (MoveRobot direction step) k) ->
  distance < 150 ->
  exists w' k',
    run w [Start tid; Resume tid (Result t r); Resume tid Done] = Some w'
    /\ tasks w' !! tid' = Some (Suspended (MoveRobot direction step) k)
    /\ tasks w' !! tid = Some (Suspended (MoveRobot BACKWARD 5) k')
    /\ last (history w') = Some (Call (MoveRobot BACKWARD 5)).
Proof.
  intros Hne Ht Ht' Hd. apply Z.ltb_lt in Hd.
  assert (Hlt : (tid < length (tasks w))%nat) by (eapply lookup_lt_Some, Ht).
  eexists _, _. split.
  - simpl. rewrite Ht. unfold advance at 1.
    unfold observe_infrared_distance_handler. cbn. rewrite Hd. cbn.
    repeat (rewrite list_lookup_insert_eq by (rewrite ?length_insert; exact Hlt);
            cbn).
    reflexivity.
  - cbn [tasks]. split; [| split].
    + rewrite !list_lookup_insert_ne by exact Hne. exact Ht'.
    + rewrite list_lookup_insert_eq by (rewrite ?length_insert; exact Hlt).
      reflexivity.
    + unfold history. cbn [log]. rewrite !map_app. cbn.
      apply last_snoc.
Qed.

(** The obstacle of [eventful], met while [Backward 4] is in flight. *)
Lemma retreat_does_not_wait_witness :
  exists w w' k k',
    run boot (firstn 12 eventful) = Some w
    /\ run w [Start 2%nat; Resume 2%nat ok; Resume 2%nat Done] = Some w'
    /\ tasks w' !! 1%nat = Some (Suspended (MoveRobot BACKWARD 4) k)
    /\ tasks w' !! 2%nat = Some (Suspended (MoveRobot BACKWARD 5) k').
Proof.
  destruct (run boot (firstn 12 eventful)) as [w |] eqn:Hr;
    [| vm_compute in Hr; discriminate Hr].
  assert (Hw : exists k,
             tasks w !! 2%nat
             = Some (Pending (observe_infrared_distance_handler 1 40))
             /\ tasks w !! 1%nat = Some (Suspended (MoveRobot BACKWARD 4) k)).
  { vm_compute in Hr. injection Hr as <-. eexists. split; reflexivity. }
  destruct Hw as (k & Ht & Ht').
  destruct (retreat_does_not_wait w 2 1 1 40 BACKWARD 4 k Success
              {| isSuccess := true |} ltac:(lia) Ht Ht' ltac:(lia))
    as (w' & k' & Hrun & H1 & H2 & _).
  exists w, w', k, k'. repeat split; assumption.
Defined.
